(** * Courtbot: the SMS dialogue of the web server

    A shallow embedding of the [/sms] route of the Express application:
    the handler function passed to [app.post('/sms', ...)] with its inner
    function [handleReminderResponse], the helper [cleanupName] and,
    apart from them, the middleware [questionAskedMiddleware].  The
    theorems are about the handler function and about [cleanupName].

    Conventions of the embedding.
    - A JavaScript string is a Rocq [string].  The character functions
      ([toUpperCase], [toLowerCase], [trim], the classes [\w], [\s], [\S])
      are those of JavaScript on ASCII text; a character above 127 is
      treated as a caseless, non-blank, non-word character.
    - [req.session] is a record of four optional fields; [None] is the
      JavaScript [undefined].  [express.cookieSession] writes the session
      into the cookie when the headers of the response are written, that
      is at the first [res.send] of the request: the session a sender
      carries to the next message is [req.session] as it is then, and
      what is assigned to it afterwards is lost.
    - [res.send] sends the response the first time it is called in a
      request and throws an [Error] (the headers are already sent) every
      time after that.  An entry of [sent] is a call of [res.send],
      whether it sent the response or threw.
    - The modules [./db], [twilio] and [moment] are not part of the source.
      What the database passes to each callback is an input ([Db]); every
      call the handler makes to [res.send], [next], [db.addReminder] and
      [db.addQueued] is logged in the [World].  What [moment] reads from
      the date and the time of a case is an input as well: a calendar
      date and a clock time.  What Express does with an error passed to
      [next] is outside the handler.
    - The callbacks given to the database run after the synchronous part of
      the handler has finished, in the order the calls were issued; a
      callback that throws ends there and the next one still runs. *)

From Stdlib Require Import String Ascii List Bool Arith NArith ZArith Lia.
From Stdlib Require Import DecimalString.
Import ListNotations.
Open Scope string_scope.
Open Scope bool_scope.

(* ================================================================= *)
(** ** JavaScript strings *)

Module JsString.

Definition is_lower (c : ascii) : bool :=
  let n := N_of_ascii c in ((97 <=? n) && (n <=? 122))%N.

Definition is_upper (c : ascii) : bool :=
  let n := N_of_ascii c in ((65 <=? n) && (n <=? 90))%N.

Definition is_digit (c : ascii) : bool :=
  let n := N_of_ascii c in ((48 <=? n) && (n <=? 57))%N.

(** The class [\w]: [A-Za-z0-9_]. *)
Definition is_word (c : ascii) : bool :=
  is_lower c || is_upper c || is_digit c || (N_of_ascii c =? 95)%N.

(** The class [\s], which is also what [trim] strips: tab, line feed,
    vertical tab, form feed, carriage return and space. *)
Definition is_space (c : ascii) : bool :=
  let n := N_of_ascii c in (((9 <=? n) && (n <=? 13)) || (n =? 32))%N.

Definition upper_char (c : ascii) : ascii :=
  if is_lower c then ascii_of_N (N_of_ascii c - 32) else c.

Definition lower_char (c : ascii) : ascii :=
  if is_upper c then ascii_of_N (N_of_ascii c + 32) else c.

Fixpoint map_chars (f : ascii -> ascii) (s : string) : string :=
  match s with
  | EmptyString => EmptyString
  | String c s' => String (f c) (map_chars f s')
  end.

Definition toUpperCase : string -> string := map_chars upper_char.
Definition toLowerCase : string -> string := map_chars lower_char.

Fixpoint ltrim (s : string) : string :=
  match s with
  | EmptyString => EmptyString
  | String c s' => if is_space c then ltrim s' else s
  end.

Fixpoint rtrim (s : string) : string :=
  match s with
  | EmptyString => EmptyString
  | String c s' =>
      match rtrim s' with
      | EmptyString => if is_space c then EmptyString else String c EmptyString
      | r => String c r
      end
  end.

Definition trim (s : string) : string := rtrim (ltrim s).

(** [txt.charAt(0)] is the empty string on an empty [txt]. *)
Definition charAt0 (txt : string) : string :=
  match txt with
  | EmptyString => EmptyString
  | String c _ => String c EmptyString
  end.

(** [txt.substr(1)]. *)
Definition substr1 (txt : string) : string :=
  match txt with
  | EmptyString => EmptyString
  | String _ r => r
  end.

(** [s.replace(/\w\S*/g, f)].  [cur] is the text of the match being
    extended, if any: a match starts at a word character and runs through
    the non-blank characters that follow; [f] is called on each whole
    match and its result replaces it; everything else is copied. *)
Fixpoint replace_word_runs (f : string -> string) (cur : option string)
         (s : string) : string :=
  match s with
  | EmptyString =>
      match cur with
      | Some txt => f txt
      | None => EmptyString
      end
  | String c s' =>
      match cur with
      | Some txt =>
          if is_space c
          then f txt ++ String c (replace_word_runs f None s')
          else replace_word_runs f (Some (txt ++ String c EmptyString)) s'
      | None =>
          if is_word c
          then replace_word_runs f (Some (String c EmptyString)) s'
          else String c (replace_word_runs f None s')
      end
  end.

End JsString.

Import JsString.

(* ================================================================= *)
(** ** [cleanupName] *)

(** The callback of [cleanupName]:
    [txt.charAt(0).toUpperCase() + txt.substr(1).toLowerCase()]. *)
Definition capitalize (txt : string) : string :=
  toUpperCase (charAt0 txt) ++ toLowerCase (substr1 txt).

Definition cleanupName (name : string) : string :=
  let name := trim name in
  let name := replace_word_runs capitalize None name in
  name.

(* ================================================================= *)
(** ** [moment] formatting

    The two format strings the handler uses, ['ddd, MMM Do'] and
    ['h:mm A'], on a calendar date and on a clock time. *)

Module Moment.

Record Date := { year : Z; month : Z; day : Z }.

(** The time of day of a moment: [hour] in 0..23, [minute] in 0..59. *)
Record Clock := { hour : Z; minute : Z }.

Local Open Scope Z_scope.

(** Days since 1970-01-01 in the proleptic Gregorian calendar. *)
Definition days_from_civil (d : Date) : Z :=
  let y := if month d <=? 2 then year d - 1 else year d in
  let era := y / 400 in
  let yoe := y - era * 400 in
  let mp := if 2 <? month d then month d - 3 else month d + 9 in
  let doy := (153 * mp + 2) / 5 + day d - 1 in
  let doe := yoe * 365 + yoe / 4 - yoe / 100 + doy in
  era * 146097 + doe - 719468.

(** 0 is Sunday; 1970-01-01 was a Thursday. *)
Definition weekday (d : Date) : Z := (days_from_civil d + 4) mod 7.

Definition weekdaysShort : list string :=
  ["Sun"; "Mon"; "Tue"; "Wed"; "Thu"; "Fri"; "Sat"]%string.

Definition monthsShort : list string :=
  ["Jan"; "Feb"; "Mar"; "Apr"; "May"; "Jun";
   "Jul"; "Aug"; "Sep"; "Oct"; "Nov"; "Dec"]%string.

Definition decimal (n : Z) : string :=
  NilEmpty.string_of_uint (N.to_uint (Z.to_N n)).

(** The English ordinal suffix of [Do]. *)
Definition ordinal (n : Z) : string :=
  let b := n mod 10 in
  let suffix :=
    if (n mod 100) / 10 =? 1 then "th"
    else if b =? 1 then "st"
    else if b =? 2 then "nd"
    else if b =? 3 then "rd"
    else "th" in
  String.append (decimal n) suffix.

(** [moment(d).format('ddd, MMM Do')], for a calendar date [d] in the
    time zone of the server. *)
Definition format_ddd_MMM_Do (d : Date) : string :=
  let ddd := nth (Z.to_nat (weekday d)) weekdaysShort "" in
  let MMM := nth (Z.to_nat (month d - 1)) monthsShort "" in
  let Do := ordinal (day d) in
  (ddd ++ ", " ++ MMM ++ " " ++ Do)%string.

Definition digit_val (c : ascii) : option Z :=
  if is_digit c then Some (Z.of_N (N_of_ascii c) - 48) else None.

Definition two_digits (a b : ascii) : option Z :=
  match digit_val a, digit_val b with
  | Some x, Some y => Some (10 * x + y)
  | _, _ => None
  end.

(** The clock that [moment("1980-01-01 " + time)] reads when [time] is
    written [HH:mm], two digits each, with an hour below 24 and a minute
    below 60.  Only this form is read here: [None] says nothing about
    what moment makes of any other string. *)
Definition read_HH_mm (time : string) : option Clock :=
  match time with
  | String h1 (String h2 (String ":" (String m1 (String m2 EmptyString)))) =>
      match two_digits h1 h2, two_digits m1 m2 with
      | Some h, Some m =>
          if (h <? 24) && (m <? 60)
          then Some {| hour := h; minute := m |}
          else None
      | _, _ => None
      end
  | _ => None
  end.

Definition pad2 (n : Z) : string :=
  if n <? 10 then String.append "0" (decimal n) else decimal n.

(** The hour of the 12-hour clock, [h]. *)
Definition hour12 (c : Clock) : Z :=
  if hour c mod 12 =? 0 then 12 else hour c mod 12.

(** The meridiem, [A]. *)
Definition meridiem (c : Clock) : string :=
  if hour c <? 12 then "AM" else "PM".

(** [t.format("h:mm A")], for the clock [t] of a valid moment; an invalid
    moment ([None]) formats as ["Invalid date"]. *)
Definition format_h_mm_A (t : option Clock) : string :=
  match t with
  | Some c => (decimal (hour12 c) ++ ":" ++ pad2 (minute c) ++ " " ++ meridiem c)%string
  | None => "Invalid date"%string
  end.

(** The Gregorian calendar, to say what the day after a date is. *)
Definition is_leap (y : Z) : bool :=
  ((y mod 4 =? 0) && negb (y mod 100 =? 0)) || (y mod 400 =? 0).

Definition days_in_month (y m : Z) : Z :=
  if m =? 2 then (if is_leap y then 29 else 28)
  else if (m =? 4) || (m =? 6) || (m =? 9) || (m =? 11) then 30
  else 31.

Definition valid_date (d : Date) : bool :=
  (1 <=? month d) && (month d <=? 12) && (1 <=? day d)
  && (day d <=? days_in_month (year d) (month d)).

Definition valid_clock (c : Clock) : bool :=
  (0 <=? hour c) && (hour c <? 24) && (0 <=? minute c) && (minute c <? 60).

Definition next_day (d : Date) : Date :=
  if day d <? days_in_month (year d) (month d)
  then {| year := year d; month := month d; day := day d + 1 |}
  else if month d <? 12
  then {| year := year d; month := month d + 1; day := 1 |}
  else {| year := year d + 1; month := 1; day := 1 |}.

(** The suffix of an English ordinal, as it is taught: "th" from 11 to
    13, otherwise by the last digit. *)
Definition ordinal_suffix (n : Z) : string :=
  if (11 <=? n mod 100) && (n mod 100 <=? 13) then "th"
  else if n mod 10 =? 1 then "st"
  else if n mod 10 =? 2 then "nd"
  else if n mod 10 =? 3 then "rd"
  else "th".

End Moment.

(* ================================================================= *)
(** ** Data model *)

(** A row of the cases table, as [db.findCitation] returns it.  [c_date]
    is the calendar date that [moment(match.date)] reads, in the time
    zone of the server, and [c_time] the clock that
    [moment("1980-01-01 " + match.time)] reads, [None] when that moment
    is invalid. *)
Record CaseRecord := {
  c_id : string;
  c_citation : string;
  c_defendant : string;
  c_date : Moment.Date;
  c_time : option Moment.Clock;
  c_room : string
}.

(** A row of the queue table, as [db.findAskedQueued] returns it. *)
Record QueuedRow := {
  q_id : string;
  q_citation : string;
  q_phone : string
}.

(** The value bound to [match]: a case row (from the session or from
    [findCitation]) or a queue row (from [findAskedQueued]). *)
Inductive Match :=
| CaseMatch (c : CaseRecord)
| QueuedMatch (q : QueuedRow).

(** [match.id]. *)
Definition match_id (m : Match) : string :=
  match m with
  | CaseMatch c => c_id c
  | QueuedMatch q => q_id q
  end.

(** [req.session]: the four properties the handler reads and writes. *)
Record Session := {
  askedReminder : option bool;
  askedQueued : option bool;
  session_match : option Match;
  citationId : option string
}.

Definition empty_session : Session :=
  {| askedReminder := None; askedQueued := None;
     session_match := None; citationId := None |}.

(** JavaScript truthiness of a flag that is [undefined], [false] or [true]. *)
Definition truthy (b : option bool) : bool :=
  match b with
  | Some true => true
  | _ => false
  end.

(** The argument of [db.addReminder]; [originalCase] stands for the JSON
    text of the match, kept as the value it serialises. *)
Record Reminder := {
  caseId : string;
  r_phone : string;
  originalCase : Match
}.

(** The argument of [db.addQueued]. *)
Record QueuedLookup := {
  ql_citationId : option string;
  ql_phone : string
}.

(** [process.env]: the two variables spliced into the messages. *)
Record Config := {
  QUEUE_TTL_DAYS : string;
  COURT_PUBLIC_URL : string
}.

(** The inbound request: [req.body.From], [req.body.Body], [req.session]. *)
Record Request := {
  From : string;
  Body : string;
  req_session : Session
}.

(** What the database hands to the callbacks.
    - [findAskedQueued phone]: [inl err] or [inr data];
    - [findCitation text]: the [results] argument, [None] when it is
      [null] or [undefined] (the handler never reads [err] there);
    - [addQueued q]: the [err] argument. *)
Record Db := {
  findAskedQueued : string -> string + list QueuedRow;
  findCitation : string -> option (list CaseRecord);
  addQueued : QueuedLookup -> option string
}.

(** A database call whose callback has not run yet. *)
Inductive Pending :=
| PFindAskedQueued (phone : string)
| PAddQueued (q : QueuedLookup)
| PFindCitation (text : string).

(** Everything the handler can change or emit during one request. *)
Record World := {
  session : Session;
  twiml : list string;            (* the messages of [twiml], oldest first *)
  sent : list (list string);      (* one entry per [res.send(twiml.toString())] *)
  nexts : list string;            (* one entry per [next(err)] *)
  reminders : list Reminder;      (* one entry per [db.addReminder] *)
  issued : list Pending;          (* the database calls that take a callback,
                                     in the order they were made *)
  cookie : option Session         (* the session written into the cookie,
                                     once the response has been sent *)
}.

Definition init_world (s : Session) : World :=
  {| session := s; twiml := []; sent := []; nexts := [];
     reminders := []; issued := []; cookie := None |}.

(* ================================================================= *)
(** ** A small monad for the handler's effects *)

Inductive Completion (A : Type) :=
| Normal (a : A)
| Throw (e : string).
Arguments Normal {A} a.
Arguments Throw {A} e.

Definition JS (A : Type) : Type := World -> Completion A * World.

Definition ret {A} (a : A) : JS A := fun w => (Normal a, w).

Definition bind {A B} (c : JS A) (k : A -> JS B) : JS B :=
  fun w =>
    match c w with
    | (Normal a, w') => k a w'
    | (Throw e, w') => (Throw e, w')
    end.

Declare Scope js_scope.
Delimit Scope js_scope with js.
Notation "x <- c1 ;; c2" := (bind c1 (fun x => c2))
  (at level 61, c1 at next level, right associativity) : js_scope.
Notation "c1 ;; c2" := (bind c1 (fun _ => c2))
  (at level 61, right associativity) : js_scope.

Definition throw {A} (e : string) : JS A := fun w => (Throw e, w).

Definition get_session : JS Session := fun w => (Normal (session w), w).

Definition put_session (s : Session) : JS unit :=
  fun w =>
    (Normal tt,
     {| session := s; twiml := twiml w; sent := sent w; nexts := nexts w;
        reminders := reminders w; issued := issued w;
        cookie := cookie w |}).

(** The assignments to the properties of [req.session]. *)
Definition with_askedReminder (b : bool) (s : Session) : Session :=
  {| askedReminder := Some b; askedQueued := askedQueued s;
     session_match := session_match s; citationId := citationId s |}.

Definition with_askedQueued (b : bool) (s : Session) : Session :=
  {| askedReminder := askedReminder s; askedQueued := Some b;
     session_match := session_match s; citationId := citationId s |}.

Definition with_match (m : Match) (s : Session) : Session :=
  {| askedReminder := askedReminder s; askedQueued := askedQueued s;
     session_match := Some m; citationId := citationId s |}.

Definition with_citationId (t : string) (s : Session) : Session :=
  {| askedReminder := askedReminder s; askedQueued := askedQueued s;
     session_match := session_match s; citationId := Some t |}.

Definition modify_session (f : Session -> Session) : JS unit :=
  (s <- get_session ;; put_session (f s))%js.

(** [req.session.askedReminder = b]. *)
Definition set_askedReminder (b : bool) : JS unit :=
  modify_session (with_askedReminder b).

(** [req.session.askedQueued = b]. *)
Definition set_askedQueued (b : bool) : JS unit :=
  modify_session (with_askedQueued b).

(** [req.session.match = m]. *)
Definition set_match (m : Match) : JS unit :=
  modify_session (with_match m).

(** [req.session.citationId = t]. *)
Definition set_citationId (t : string) : JS unit :=
  modify_session (with_citationId t).

(** [twiml.sms(msg)]. *)
Definition sms (msg : string) : JS unit :=
  fun w =>
    (Normal tt,
     {| session := session w; twiml := twiml w ++ [msg]; sent := sent w;
        nexts := nexts w; reminders := reminders w; issued := issued w;
        cookie := cookie w |}).

(** How a call of [res.send] completes: the first call of a request sends
    the response, a later one throws
    [Error: Can't set headers after they are sent]. *)
Definition send_completion (w : World) : Completion unit :=
  match sent w with
  | [] => Normal tt
  | _ :: _ => Throw "Error"
  end.

(** The cookie after a call of [res.send]: the first call writes the
    session into it. *)
Definition send_cookie (s : Session) (w : World) : option Session :=
  match sent w with
  | [] => Some s
  | _ :: _ => cookie w
  end.

(** [res.send(twiml.toString())]. *)
Definition res_send : JS unit :=
  fun w =>
    (send_completion w,
     {| session := session w; twiml := twiml w; sent := sent w ++ [twiml w];
        nexts := nexts w; reminders := reminders w; issued := issued w;
        cookie := send_cookie (session w) w |}).

(** [next(err)]. *)
Definition next (err : string) : JS unit :=
  fun w =>
    (Normal tt,
     {| session := session w; twiml := twiml w; sent := sent w;
        nexts := nexts w ++ [err]; reminders := reminders w;
        issued := issued w;
        cookie := cookie w |}).

(** [db.addReminder(r, function(err, data) {})]. *)
Definition db_addReminder (r : Reminder) : JS unit :=
  fun w =>
    (Normal tt,
     {| session := session w; twiml := twiml w; sent := sent w;
        nexts := nexts w; reminders := reminders w ++ [r];
        issued := issued w;
        cookie := cookie w |}).

(** A database call whose callback runs later. *)
Definition issue (p : Pending) : JS unit :=
  fun w =>
    (Normal tt,
     {| session := session w; twiml := twiml w; sent := sent w;
        nexts := nexts w; reminders := reminders w;
        issued := issued w ++ [p];
        cookie := cookie w |}).

(* ================================================================= *)
(** ** The messages *)

Definition is_affirmative (text : string) : bool :=
  (text =? "YES") || (text =? "YEA") || (text =? "YUP") || (text =? "Y").

Definition is_negative (text : string) : bool :=
  (text =? "NO") || (text =? "N").

Definition msg_reminder_1 : string :=
  "(1/2) Sounds good. We will attempt to text you a courtesy reminder the day before your case. Note that case schedules frequently change.".

Definition msg_reminder_2 (env : Config) : string :=
  "(2/2) You should always confirm your case date and time by going to "
  ++ COURT_PUBLIC_URL env.

Definition msg_optout (env : Config) : string :=
  "OK. You can always go to " ++ COURT_PUBLIC_URL env
  ++ " for more information about your case and contact information.".

Definition msg_queued (env : Config) : string :=
  "OK. We will keep checking for up to " ++ QUEUE_TTL_DAYS env
  ++ " days. You can always go to " ++ COURT_PUBLIC_URL env
  ++ " for more information about your case and contact information.".

Definition msg_notfound_1 : string :=
  "(1/2) Could not find a case with that number. It can take several days for a case to appear in our system.".

Definition msg_notfound_2 (env : Config) : string :=
  "(2/2) Would you like us to keep checking for the next "
  ++ QUEUE_TTL_DAYS env
  ++ " days and text you if we find it? (reply YES or NO)".

Definition msg_format : string :=
  "Couldn't find your case. Case identifier should be 6 to 25 numbers and/or letters in length.".

Definition msg_prompt : string :=
  ". Would you like a courtesy reminder the day before? (reply YES or NO)".

Definition msg_found (m : CaseRecord) : string :=
  let name := cleanupName (c_defendant m) in
  let date := Moment.format_ddd_MMM_Do (c_date m) in
  "Found a case for " ++ name ++ " scheduled on " ++ date ++ " at "
  ++ Moment.format_h_mm_A (c_time m) ++ ", at " ++ c_room m ++ msg_prompt.

(* ================================================================= *)
(** ** The [/sms] handler *)

Section Handler.

Variable db : Db.
Variable env : Config.
Variable req : Request.

Local Open Scope js_scope.

(** [var text = req.body.Body.toUpperCase();] *)
Definition text : string := toUpperCase (Body req).

(** [handleReminderResponse(match)].  With an affirmative text the
    argument of [db.addReminder] reads [match.id], a [TypeError] when
    [match] is [undefined].  An unrecognised text does nothing. *)
Definition handleReminderResponse (m : option Match) : JS unit :=
  if is_affirmative text then
    match m with
    | None => throw "TypeError"
    | Some m =>
        db_addReminder {| caseId := match_id m; r_phone := From req;
                          originalCase := m |} ;;
        sms msg_reminder_1 ;;
        sms (msg_reminder_2 env) ;;
        set_askedReminder false ;;
        res_send
    end
  else if is_negative text then
    sms (msg_optout env) ;;
    set_askedReminder false ;;
    res_send
  else ret tt.

(** [6 <= text.length && text.length <= 25]. *)
Definition correctLengthCitation : bool :=
  ((6 <=? String.length text) && (String.length text <=? 25))%nat.

(** [!results || results.length === 0 || results.length > 1]. *)
Definition no_unique_case (results : option (list CaseRecord)) : bool :=
  match results with
  | None => true
  | Some rs => ((List.length rs =? 0) || (1 <? List.length rs))%nat
  end.

(** The callback of [db.findAskedQueued] in the handler. *)
Definition on_findAskedQueued (r : string + list QueuedRow) : JS unit :=
  match r with
  | inl err => next err
  | inr data =>
      if (List.length data =? 1)%nat then
        match data with
        | m :: _ => handleReminderResponse (Some (QueuedMatch m))
        | [] => ret tt
        end
      else ret tt
  end.

(** The callback of [db.addQueued]: [next(err)] does not end it. *)
Definition on_addQueued (err : option string) : JS unit :=
  match err with
  | Some e => next e
  | None => ret tt
  end ;;
  sms (msg_queued env) ;;
  set_askedQueued false ;;
  res_send.

(** The callback of [db.findCitation]. *)
Definition on_findCitation (results : option (list CaseRecord)) : JS unit :=
  (if no_unique_case results then
     if correctLengthCitation then
       sms msg_notfound_1 ;;
       sms (msg_notfound_2 env) ;;
       set_askedQueued true ;;
       set_citationId text
     else
       sms msg_format
   else
     match results with
     | Some (m :: _) =>
         sms (msg_found m) ;;
         set_match (CaseMatch m) ;;
         set_askedReminder true
     | _ => ret tt
     end) ;;
  res_send.

(** The block [if (req.session.askedQueued) { ... }].  The result tells
    whether the handler returned inside it: only the negative answer
    does; the [return] of the affirmative answer is in the callback. *)
Definition answer_queued : JS bool :=
  s <- get_session ;;
  if truthy (askedQueued s) then
    if is_affirmative text then
      issue (PAddQueued {| ql_citationId := citationId s;
                           ql_phone := From req |}) ;;
      ret false
    else if is_negative text then
      sms (msg_optout env) ;;
      set_askedQueued false ;;
      res_send ;;
      ret true
    else ret false
  else ret false.

(** The part of the handler that runs before it returns to the event
    loop. *)
Definition handler_sync : JS unit :=
  s <- get_session ;;
  (if truthy (askedReminder s)
   then handleReminderResponse (session_match s)
   else issue (PFindAskedQueued (From req))) ;;
  returned <- answer_queued ;;
  if returned then ret tt
  else issue (PFindCitation text).

Definition run_callback (p : Pending) : JS unit :=
  match p with
  | PFindAskedQueued phone => on_findAskedQueued (findAskedQueued db phone)
  | PAddQueued q => on_addQueued (addQueued db q)
  | PFindCitation t => on_findCitation (findCitation db t)
  end.

(** The callbacks run one after the other, each to its end or to the
    error it throws. *)
Definition event_loop (ps : list Pending) (w : World) : World :=
  fold_left (fun w p => snd (run_callback p w)) ps w.

(** One request: the synchronous part, then the callbacks of the calls
    it issued.  The completion is that of the synchronous part. *)
Definition handler : Completion unit * World :=
  let (c, w) := handler_sync (init_world (req_session req)) in
  (c, event_loop (issued w) w).

End Handler.

(** The session of the cookie the response carries: the session as it was
    at the first [res.send]; when nothing was sent, the session as it was
    left. *)
Definition carried (w : World) : Session :=
  match cookie w with
  | Some s => s
  | None => session w
  end.

(** The session a sender carries to the next message. *)
Definition session_after (db : Db) (env : Config) (req : Request) : Session :=
  carried (snd (handler db env req)).

(** The reply of a request: the bodies passed to [res.send], in order. *)
Definition replies (db : Db) (env : Config) (req : Request)
  : list (list string) :=
  sent (snd (handler db env req)).

(* ================================================================= *)
(** ** [questionAskedMiddleware] *)

(** What [db.findAskedQueued] passes as the first argument of its callback,
    which the middleware binds to [data]: [null] or [undefined], an error
    object, or an array of rows. *)
Inductive JsValue :=
| JsNull
| JsError (e : string)
| JsArray (rows : list QueuedRow).

(** The callback of the middleware.  [data.length] is a [TypeError] on
    [null]; an error object has no [length]; [handleReminderResponse] is
    local to the handler, so the call is a [ReferenceError] here.  [next]
    is never called. *)
Definition questionAskedMiddleware (data : JsValue) : JS unit :=
  match data with
  | JsNull => throw "TypeError"
  | JsError _ => ret tt
  | JsArray rows =>
      if (List.length rows =? 1)%nat then throw "ReferenceError" else ret tt
  end.

(* ================================================================= *)
(** ** Auxiliary definitions of the statements *)

(** [replace_word_runs capitalize] read one character at a time:
    [inside] tells whether a match is being extended. *)
Fixpoint title_run (inside : bool) (s : string) : string :=
  match s with
  | EmptyString => EmptyString
  | String c s' =>
      if inside then
        if is_space c then String c (title_run false s')
        else String (lower_char c) (title_run true s')
      else
        if is_word c then String (upper_char c) (title_run true s')
        else String c (title_run false s')
  end.

(** The first character, if any, is not a blank. *)
Definition starts_nonblank (s : string) : Prop :=
  match s with
  | EmptyString => True
  | String c _ => is_space c = false
  end.

(** Title case as the specification words it: every blank-delimited token
    has its first character upper-cased and the remainder lower-cased. *)
Fixpoint title_case_spec_from (token_start : bool) (s : string) : string :=
  match s with
  | EmptyString => EmptyString
  | String c s' =>
      if is_space c then String c (title_case_spec_from true s')
      else String (if token_start then upper_char c else lower_char c)
                  (title_case_spec_from false s')
  end.

Definition title_case_spec (name : string) : string :=
  title_case_spec_from true name.

(** Every blank-delimited token starts with a word character;
    [token_start] tells whether the next character starts a token. *)
Fixpoint tokens_start_with_word (token_start : bool) (s : string) : bool :=
  match s with
  | EmptyString => true
  | String c s' =>
      if is_space c then tokens_start_with_word true s'
      else (if token_start then is_word c else true)
           && tokens_start_with_word false s'
  end.

(** The case summary with the name as the specification words it. *)
Definition msg_found_spec (m : CaseRecord) : string :=
  "Found a case for " ++ title_case_spec (c_defendant m)
  ++ " scheduled on " ++ Moment.format_ddd_MMM_Do (c_date m) ++ " at "
  ++ Moment.format_h_mm_A (c_time m) ++ ", at " ++ c_room m ++ msg_prompt.

(** The query text as the specification words it: trimmed and upper-cased. *)
Definition queryText_spec (body : string) : string :=
  toUpperCase (trim body).

(** A store whose citation lookup answers [results]. *)
Definition citations_return (db : Db) (results : option (list CaseRecord))
  : Db :=
  {| findAskedQueued := findAskedQueued db;
     findCitation := fun _ => results;
     addQueued := addQueued db |}.

(** No flag of the session is set and the subscription store holds no
    single asked row for the sender: no question is pending. *)
Definition idle (db : Db) (req : Request) : Prop :=
  truthy (askedReminder (req_session req)) = false /\
  truthy (askedQueued (req_session req)) = false /\
  forall row, findAskedQueued db (From req) <> inr [row].

(** What the callback of [findAskedQueued] logs when its row, if any, is
    not acted upon: the error passed to [next]. *)
Definition queue_lookup_errors (db : Db) (req : Request) : list string :=
  if truthy (askedReminder (req_session req)) then []
  else match findAskedQueued db (From req) with
       | inl err => [err]
       | inr _ => []
       end.

(** The messages the callback of [findCitation] adds to [twiml]. *)
Definition lookup_messages (env : Config) (req : Request)
           (results : option (list CaseRecord)) : list string :=
  if no_unique_case results then
    if correctLengthCitation req
    then [msg_notfound_1; msg_notfound_2 env]
    else [msg_format]
  else
    match results with
    | Some (m :: _) => [msg_found m]
    | _ => []
    end.

(** The session the callback of [findCitation] leaves. *)
Definition lookup_session (req : Request)
           (results : option (list CaseRecord)) (s : Session) : Session :=
  if no_unique_case results then
    if correctLengthCitation req
    then with_citationId (text req) (with_askedQueued true s)
    else s
  else
    match results with
    | Some (m :: _) => with_askedReminder true (with_match (CaseMatch m) s)
    | _ => s
    end.

(** A reply: the session is updated, the messages are added to [twiml]
    and [twiml] is passed to [res.send]. *)
Definition reply_with (msgs : list string) (f : Session -> Session)
           (w : World) : World :=
  {| session := f (session w);
     twiml := twiml w ++ msgs;
     sent := sent w ++ [(twiml w ++ msgs)%list];
     nexts := nexts w;
     reminders := reminders w;
     issued := issued w;
     cookie := send_cookie (f (session w)) w |}.

Definition log_reminder (r : Reminder) (w : World) : World :=
  {| session := session w; twiml := twiml w; sent := sent w;
     nexts := nexts w; reminders := reminders w ++ [r];
     issued := issued w;
        cookie := cookie w |}.

Definition log_next (errs : list string) (w : World) : World :=
  {| session := session w; twiml := twiml w; sent := sent w;
     nexts := nexts w ++ errs; reminders := reminders w;
     issued := issued w;
        cookie := cookie w |}.

Definition log_issued (ps : list Pending) (w : World) : World :=
  {| session := session w; twiml := twiml w; sent := sent w;
     nexts := nexts w; reminders := reminders w;
     issued := issued w ++ ps;
        cookie := cookie w |}.

(** The reminder [handleReminderResponse] stores for a match. *)
Definition reminder_for (req : Request) (m : Match) : Reminder :=
  {| caseId := match_id m; r_phone := From req; originalCase := m |}.

(** The reminders created by a message and by a second message, handled
    with the session the cookie of the first reply carries. *)
Definition reminders_of_two (db1 db2 : Db) (env : Config)
           (from body1 body2 : string) (s : Session) : list Reminder :=
  let req1 := {| From := from; Body := body1; req_session := s |} in
  let req2 := {| From := from; Body := body2;
                 req_session := session_after db1 env req1 |} in
  reminders (snd (handler db1 env req1)) ++
  reminders (snd (handler db2 env req2)).

(** What it would mean for a message to be answered as a confirmation of
    the queue question: a queued lookup is requested and no reminder is
    stored. *)
Definition answered_as_queue_confirm (w : World) : Prop :=
  reminders w = [] /\ exists q, In (PAddQueued q) (issued w).

(** ** Sample data *)

Definition example_env : Config :=
  {| QUEUE_TTL_DAYS := "10"; COURT_PUBLIC_URL := "https://courts.example" |}.

Definition example_case : CaseRecord :=
  {| c_id := "7"; c_citation := "Z-9"; c_defendant := "john q public";
     c_date := {| Moment.year := 2024; Moment.month := 3; Moment.day := 4 |};
     c_time := Moment.read_HH_mm "14:30"; c_room := "101" |}.

Definition example_row : QueuedRow :=
  {| q_id := "41"; q_citation := "ABC123"; q_phone := "+15550100" |}.

Definition aka_case : CaseRecord :=
  {| c_id := "8"; c_citation := "Z-10"; c_defendant := "DOE (AKA SMITH)";
     c_date := {| Moment.year := 2024; Moment.month := 3; Moment.day := 4 |};
     c_time := Moment.read_HH_mm "09:05"; c_room := "101" |}.

(** A store with no case, no asked row and no failure. *)
Definition quiet_db : Db :=
  {| findAskedQueued := fun _ => inr [];
     findCitation := fun _ => Some [];
     addQueued := fun _ => None |}.

(** A store that holds one asked row for every sender. *)
Definition one_row_db : Db :=
  {| findAskedQueued := fun _ => inr [example_row];
     findCitation := fun _ => Some [];
     addQueued := fun _ => None |}.

Definition request (body : string) (s : Session) : Request :=
  {| From := "+15550100"; Body := body; req_session := s |}.

Definition awaiting_queue : Session :=
  {| askedReminder := None; askedQueued := Some true;
     session_match := None; citationId := Some "ABC123" |}.

Definition awaiting_reminder : Session :=
  {| askedReminder := Some true; askedQueued := None;
     session_match := Some (CaseMatch example_case); citationId := None |}.

Definition awaiting_both : Session :=
  {| askedReminder := Some true; askedQueued := Some true;
     session_match := Some (CaseMatch example_case);
     citationId := Some "ABC123" |}.

(* ================================================================= *)
(** ** Conversations *)

(** What every session written by the handler satisfies: a pending
    reminder question has its match, and a pending queue question has its
    citation text, of 6 to 25 characters. *)
Definition session_ok (s : Session) : Prop :=
  (truthy (askedReminder s) = true -> session_match s <> None) /\
  (truthy (askedQueued s) = true ->
   exists t, citationId s = Some t /\ 6 <= String.length t <= 25).

(** The messages of one sender, one after the other: each turn gives the
    store as it answers during that message and the body of the message;
    the session of a turn is the one the cookie of the turn before
    carries. *)
Fixpoint conversation (env : Config) (from : string) (s : Session)
         (turns : list (Db * string)) : list (Completion unit * World) :=
  match turns with
  | [] => []
  | (db, body) :: rest =>
      let r := handler db env {| From := from; Body := body;
                                 req_session := s |} in
      r :: conversation env from (carried (snd r)) rest
  end.

(** [b] repeats the messages of [a] and adds some. *)
Definition extends (a b : list string) : Prop :=
  exists extra, extra <> [] /\ b = (a ++ extra)%list.

(** Every reply extends the one before it. *)
Fixpoint cumulative (l : list (list string)) : Prop :=
  match l with
  | a :: rest =>
      match rest with
      | b :: _ => extends a b /\ cumulative rest
      | [] => True
      end
  | [] => True
  end.

(** The calls of [db.addQueued] among the database calls. *)
Definition is_addQueued (p : Pending) : bool :=
  match p with
  | PAddQueued _ => true
  | _ => false
  end.

(** A store whose subscription lookup fails. *)
Definition failing_db : Db :=
  {| findAskedQueued := fun _ => inl "ECONNREFUSED";
     findCitation := fun _ => Some [];
     addQueued := fun _ => None |}.

(* ================================================================= *)
(** ** The shape of a cleaned-up name *)

(** In every blank-delimited token the first word character is no
    lower-case letter and no character after it is an upper-case letter;
    [inside] tells whether the first word character of the token has been
    passed. *)
Fixpoint well_cased (inside : bool) (s : string) : bool :=
  match s with
  | EmptyString => true
  | String c s' =>
      if is_space c then well_cased false s'
      else if inside then negb (is_upper c) && well_cased true s'
      else if is_word c then negb (is_lower c) && well_cased true s'
      else well_cased false s'
  end.

(** All the characters are blanks. *)
Fixpoint all_blank (s : string) : bool :=
  match s with
  | EmptyString => true
  | String c s' => is_space c && all_blank s'
  end.

(* ================================================================= *)
(** ** The database manager: creating the tables

    [createTableInstructions], [createTable] and [ensureTablesExist].
    The database is the list of the names of its tables, oldest first.
    [knex.schema.createTable] is taken to reject when the table exists,
    when a table that one of its foreign keys references does not, or
    when the database refuses for a reason of its own ([broken]), and
    otherwise to add the table.  A promise chain is run in order; a
    rejection is a [Rejected] result. *)

Module Manager.

Inductive LogEntry :=
| NoInstructions (table : string)   (* logger.error: no instructions found *)
| AlreadyExists (table : string)    (* logger.debug: already exists *)
| TableCreated (table : string)     (* logger.debug: table created *)
| LoggedError (err : string).       (* logger.error(err) *)

Record State := {
  tables : list string;
  log : list LogEntry
}.

Inductive Result :=
| Resolved
| Rejected (err : string)
| ReturnedFalse.

Definition say (e : LogEntry) (st : State) : State :=
  {| tables := tables st; log := log st ++ [e] |}.

(** [knex.schema.hasTable(table)]. *)
Definition hasTable (table : string) (st : State) : bool :=
  existsb (String.eqb table) (tables st).

(** The tables the foreign keys of a table reference, as its entry of
    [createTableInstructions] declares them; [None] for a name that has
    no entry.  (A name that every JavaScript object inherits, such as
    [toString], is no name of a table and is outside the model.) *)
Definition foreign_tables (table : string) : option (list string) :=
  if table =? "defendants" then Some []
  else if table =? "cases" then Some ["defendants"]
  else if table =? "subscribers" then Some []
  else if table =? "subscriptions" then Some ["defendants"; "subscribers"]
  else None.

Section Database.

(** The error, if any, with which the database refuses to create a table
    for a reason of its own. *)
Variable broken : string -> option string.

(** [knex.schema.createTable(table, ...)] with the given foreign keys. *)
Definition knex_createTable (table : string) (refs : list string)
           (st : State) : Result * State :=
  match broken table with
  | Some err => (Rejected err, st)
  | None =>
      if hasTable table st then (Rejected "relation already exists", st)
      else if forallb (fun r => hasTable r st) refs
      then (Resolved, {| tables := tables st ++ [table]; log := log st |})
      else (Rejected "relation does not exist", st)
  end.

(** [createTableInstructions[table]()]: create the table unless it
    exists. *)
Definition createTableInstructions (table : string) (refs : list string)
           (st : State) : Result * State :=
  if negb (hasTable table st) then knex_createTable table refs st
  else (Resolved, st).

(** [createTable(table)]. *)
Definition createTable (table : string) (st : State) : Result * State :=
  match foreign_tables table with
  | None => (ReturnedFalse, say (NoInstructions table) st)
  | Some refs =>
      if hasTable table st then (Resolved, say (AlreadyExists table) st)
      else
        match createTableInstructions table refs st with
        | (Resolved, st') => (Resolved, say (TableCreated table) st')
        | (r, st') => (r, st')
        end
  end.

(** One link of the chain of [ensureTablesExist]:
    [p.then(() => createTable(v).catch(err => logger.error(err)))].
    Calling [catch] on [false] throws, which rejects the chain. *)
Definition ensure_link (p : Result * State) (v : string) : Result * State :=
  match p with
  | (Resolved, st) =>
      match createTable v st with
      | (Resolved, st') => (Resolved, st')
      | (Rejected err, st') => (Resolved, say (LoggedError err) st')
      | (ReturnedFalse, st') => (Rejected "TypeError", st')
      end
  | _ => p
  end.

Definition all_tables : list string :=
  ["defendants"; "cases"; "subscribers"; "subscriptions"].

(** [ensureTablesExist()]. *)
Definition ensureTablesExist (st : State) : Result * State :=
  fold_left ensure_link all_tables (Resolved, st).

End Database.

(** A database that refuses nothing. *)
Definition sound : string -> option string := fun _ => None.

(** [createTable] on a database that refuses nothing and holds the tables
    the foreign keys of the table reference. *)
Definition ensured (v : string) (st : State) : State :=
  if hasTable v st then say (AlreadyExists v) st
  else say (TableCreated v) {| tables := tables st ++ [v]; log := log st |}.

(** The log entries that report an error. *)
Definition is_error (e : LogEntry) : bool :=
  match e with
  | NoInstructions _ | LoggedError _ => true
  | _ => false
  end.

End Manager.

(* ================================================================= *)
(** ** The data loading script

    [runnerScript().then(loaded).then(debug).then(destroy).catch(...)].
    What each asynchronous step does is an input; the effects are logged
    in order. *)

Module Runner.

Inductive Effect :=
| Loaded (r : string)              (* runner_log.loaded(r) *)
| Debug (line : string)            (* log.debug of a fixed line *)
| DebugHandles                     (* log.debug(process._getActiveHandles()) *)
| DebugRequests                    (* log.debug(process._getActiveRequests()) *)
| Destroy                          (* manager.knex.destroy() *)
| LoggedError (err : string).      (* log.error(err) *)

(** The outcome of [runnerScript()] ([inl err] when it rejects), the error
    of [runner_log.loaded(r)] and the error of the chained
    [manager.knex.destroy()], if any. *)
Record Steps := {
  load : string + string;
  report : option string;
  destroy : option string
}.

(** The [catch] handler; what its own call of [destroy] returns is not
    looked at. *)
Definition on_error (err : string) : list Effect :=
  [Destroy; LoggedError err].

(** The third step, which is taken not to fail. *)
Definition debug_handles : list Effect :=
  [Debug "checking active handles"; DebugHandles;
   Debug "checking active requests"; DebugRequests].

Definition run (s : Steps) : list Effect :=
  match load s with
  | inl err => on_error err
  | inr r =>
      match report s with
      | Some err => on_error err
      | None =>
          [Loaded r] ++ debug_handles ++ [Destroy] ++
          match destroy s with
          | Some err => on_error err
          | None => []
          end
      end
  end.

(** The error of the first step that fails. *)
Definition first_failure (s : Steps) : option string :=
  match load s with
  | inl err => Some err
  | inr _ =>
      match report s with
      | Some err => Some err
      | None => destroy s
      end
  end.

Definition is_destroy (e : Effect) : bool :=
  match e with
  | Destroy => true
  | _ => false
  end.

End Runner.

(* ================================================================= *)
(** * Properties *)

(** ** Characters *)

Ltac by_cases_on_char c :=
  destruct c as [[] [] [] [] [] [] [] []]; vm_compute; try reflexivity;
  try discriminate; auto.

Lemma upper_char_idem (c : ascii) : upper_char (upper_char c) = upper_char c.
Proof. by_cases_on_char c. Qed.

Lemma lower_char_idem (c : ascii) : lower_char (lower_char c) = lower_char c.
Proof. by_cases_on_char c. Qed.

Lemma is_space_upper (c : ascii) : is_space (upper_char c) = is_space c.
Proof. by_cases_on_char c. Qed.

Lemma is_space_lower (c : ascii) : is_space (lower_char c) = is_space c.
Proof. by_cases_on_char c. Qed.

Lemma is_word_upper (c : ascii) : is_word (upper_char c) = is_word c.
Proof. by_cases_on_char c. Qed.

Lemma word_not_space (c : ascii) : is_word c = true -> is_space c = false.
Proof. by_cases_on_char c. Qed.

Lemma space_not_word (c : ascii) : is_space c = true -> is_word c = false.
Proof. by_cases_on_char c. Qed.

(** ** Strings *)

Lemma append_empty_r (s : string) : s ++ "" = s.
Proof. induction s as [|c s IH]; simpl; [reflexivity | now rewrite IH]. Qed.

Lemma append_assoc (a b c : string) : (a ++ b) ++ c = a ++ (b ++ c).
Proof. induction a as [|x a IH]; simpl; [reflexivity | now rewrite IH]. Qed.

Lemma map_chars_append (f : ascii -> ascii) (a b : string) :
  map_chars f (a ++ b) = map_chars f a ++ map_chars f b.
Proof. induction a as [|x a IH]; simpl; [reflexivity | now rewrite IH]. Qed.


(** ** [trim] *)

Lemma ltrim_starts_nonblank (s : string) : starts_nonblank (ltrim s).
Proof.
  induction s as [|c s IH]; simpl; [exact I|].
  destruct (is_space c) eqn:E; [exact IH | exact E].
Qed.

Lemma ltrim_fixed (s : string) : starts_nonblank s -> ltrim s = s.
Proof. destruct s as [|c s]; simpl; [reflexivity|]. now intros ->. Qed.

Lemma rtrim_starts_nonblank (s : string) :
  starts_nonblank s -> starts_nonblank (rtrim s).
Proof.
  destruct s as [|c s]; simpl; [exact id|]. intros E.
  destruct (rtrim s); rewrite ?E; exact E.
Qed.

Lemma rtrim_idem (s : string) : rtrim (rtrim s) = rtrim s.
Proof.
  induction s as [|c s IH]; simpl; [reflexivity|].
  destruct (rtrim s) as [|d r] eqn:R.
  - destruct (is_space c) eqn:E; simpl; [reflexivity | now rewrite E].
  - change (rtrim (String c (String d r))) with
      (match rtrim (String d r) with
       | EmptyString => if is_space c then EmptyString else String c EmptyString
       | String a b => String c (String a b)
       end).
    now rewrite IH.
Qed.

Lemma trim_idem (s : string) : trim (trim s) = trim s.
Proof.
  unfold trim.
  rewrite (ltrim_fixed (rtrim (ltrim s))).
  - apply rtrim_idem.
  - apply rtrim_starts_nonblank, ltrim_starts_nonblank.
Qed.

(** ** [replace_word_runs capitalize] is [title_run] *)

Lemma capitalize_cons (c : ascii) (m : string) :
  capitalize (String c m) = String (upper_char c) (toLowerCase m).
Proof. reflexivity. Qed.

Lemma replace_word_runs_title (s : string) :
  replace_word_runs capitalize None s = title_run false s /\
  forall c m,
    replace_word_runs capitalize (Some (String c m)) s
    = String (upper_char c) (toLowerCase m) ++ title_run true s.
Proof.
  induction s as [|d s [IHn IHs]]; split.
  - reflexivity.
  - intros c m. cbn [replace_word_runs]. rewrite capitalize_cons.
    simpl. now rewrite append_empty_r.
  - simpl. destruct (is_word d).
    + rewrite (IHs d ""). reflexivity.
    + now rewrite IHn.
  - intros c m. cbn [replace_word_runs title_run].
    destruct (is_space d).
    + rewrite capitalize_cons, IHn. reflexivity.
    + change (String c m ++ String d "") with (String c (m ++ String d "")).
      rewrite IHs. unfold toLowerCase. rewrite map_chars_append. simpl.
      rewrite append_assoc. reflexivity.
Qed.

Lemma cleanupName_title_run (name : string) :
  cleanupName name = title_run false (trim name).
Proof. unfold cleanupName. apply replace_word_runs_title. Qed.

(** ** [title_run] commutes with [trim] and is idempotent *)

Lemma title_run_idem (b : bool) (s : string) :
  title_run b (title_run b s) = title_run b s.
Proof.
  revert b. induction s as [|c s IH]; intros b; simpl; [reflexivity|].
  destruct b.
  - destruct (is_space c) eqn:E; simpl.
    + now rewrite E, IH.
    + now rewrite is_space_lower, E, lower_char_idem, IH.
  - destruct (is_word c) eqn:E; simpl.
    + now rewrite is_word_upper, E, upper_char_idem, IH.
    + now rewrite E, IH.
Qed.

Lemma title_run_ltrim (s : string) :
  ltrim (title_run false s) = title_run false (ltrim s).
Proof.
  induction s as [|c s IH]; simpl; [reflexivity|].
  destruct (is_space c) eqn:E.
  - rewrite (space_not_word c E). simpl. now rewrite E.
  - destruct (is_word c) eqn:W; simpl; rewrite ?is_space_upper, E, ?W;
      reflexivity.
Qed.

Lemma title_run_empty (b : bool) (s : string) :
  title_run b s = "" -> s = "".
Proof.
  destruct s as [|c s]; [reflexivity|]. simpl.
  destruct b; [destruct (is_space c) | destruct (is_word c)]; discriminate.
Qed.

Lemma title_run_rtrim (b : bool) (s : string) :
  rtrim (title_run b s) = title_run b (rtrim s).
Proof.
  revert b. induction s as [|c s IH]; intros b; [reflexivity|].
  assert (step : exists c' b',
             is_space c' = is_space c /\
             forall t, title_run b (String c t) = String c' (title_run b' t)).
  { simpl. destruct b.
    - destruct (is_space c) eqn:E.
      + exists c, false. now split.
      + exists (lower_char c), true. split; [now rewrite is_space_lower|reflexivity].
    - destruct (is_word c) eqn:E.
      + exists (upper_char c), true. split; [now rewrite is_space_upper|reflexivity].
      + exists c, false. now split. }
  destruct step as (c' & b' & Hsp & Hstep).
  rewrite Hstep. simpl rtrim. rewrite IH, Hsp.
  destruct (rtrim s) as [|d r] eqn:R.
  - simpl title_run at 1. destruct (is_space c); [reflexivity|].
    now rewrite Hstep.
  - rewrite Hstep.
    destruct (title_run b' (String d r)) eqn:T; [|reflexivity].
    apply title_run_empty in T. discriminate.
Qed.

Lemma title_run_trim (s : string) :
  trim (title_run false s) = title_run false (trim s).
Proof. unfold trim. now rewrite title_run_ltrim, title_run_rtrim. Qed.

(** C10.  The defendant-name normalisation is idempotent: cleaning up a
    name that has already been cleaned up changes nothing. *)
Theorem cleanupName_idempotent (s : string) :
  cleanupName (cleanupName s) = cleanupName s.
Proof.
  rewrite !cleanupName_title_run.
  now rewrite title_run_trim, trim_idem, title_run_idem.
Qed.

(** ** Confirmation words *)

Arguments text : simpl never.
Arguments correctLengthCitation : simpl never.
Arguments msg_found : simpl never.
Arguments msg_optout : simpl never.
Arguments msg_queued : simpl never.
Arguments msg_reminder_2 : simpl never.
Arguments msg_notfound_2 : simpl never.

Lemma affirmative_short (t : string) :
  is_affirmative t = true -> String.length t <= 3.
Proof.
  unfold is_affirmative. rewrite !orb_true_iff, !String.eqb_eq.
  intros [[[-> | ->] | ->] | ->]; simpl; lia.
Qed.

Lemma negative_short (t : string) :
  is_negative t = true -> String.length t <= 2.
Proof.
  unfold is_negative. rewrite !orb_true_iff, !String.eqb_eq.
  intros [-> | ->]; simpl; lia.
Qed.

Lemma long_text_unrecognised (t : string) :
  6 <= String.length t -> is_affirmative t = false /\ is_negative t = false.
Proof.
  intros H. split.
  - destruct (is_affirmative t) eqn:E; [|reflexivity].
    apply affirmative_short in E. lia.
  - destruct (is_negative t) eqn:E; [|reflexivity].
    apply negative_short in E. lia.
Qed.

Lemma affirmative_not_negative (t : string) :
  is_affirmative t = true -> is_negative t = false.
Proof.
  unfold is_affirmative, is_negative.
  rewrite !orb_true_iff, !String.eqb_eq.
  intros [[[-> | ->] | ->] | ->]; reflexivity.
Qed.


(** ** The effect of each part of the handler on the world *)

Ltac unfold_js :=
  unfold set_askedReminder, set_askedQueued, set_match, set_citationId,
    modify_session, put_session, get_session, sms, res_send, next,
    db_addReminder, issue, throw, bind, ret.

Lemma world_eta (w : World) :
  {| session := session w; twiml := twiml w; sent := sent w;
     nexts := nexts w; reminders := reminders w; issued := issued w;
     cookie := cookie w |} = w.
Proof. now destruct w. Qed.


Lemma on_findCitation_eq (env : Config) (req : Request)
      (results : option (list CaseRecord)) (w : World) :
  on_findCitation env req results w
  = (send_completion w,
     reply_with (lookup_messages env req results)
                (lookup_session req results) w).
Proof.
  unfold on_findCitation, lookup_messages, lookup_session, reply_with.
  destruct results as [[|m [|m' l]]|]; cbn [no_unique_case List.length
    Nat.eqb Nat.ltb Nat.leb orb]; try destruct (correctLengthCitation req);
    unfold_js; cbn; rewrite <- ?app_assoc, ?app_nil_r; reflexivity.
Qed.

Lemma handleReminderResponse_affirmative
      (env : Config) (req : Request) (m : Match) (w : World) :
  is_affirmative (text req) = true ->
  handleReminderResponse env req (Some m) w
  = (send_completion w,
     reply_with [msg_reminder_1; msg_reminder_2 env] (with_askedReminder false)
                (log_reminder (reminder_for req m) w)).
Proof.
  intros Ha. unfold handleReminderResponse. rewrite Ha.
  unfold_js. unfold reply_with, log_reminder, reminder_for. cbn.
  now rewrite <- app_assoc.
Qed.

Lemma handleReminderResponse_no_match
      (env : Config) (req : Request) (w : World) :
  is_affirmative (text req) = true ->
  handleReminderResponse env req None w = (Throw "TypeError", w).
Proof. intros Ha. unfold handleReminderResponse. now rewrite Ha. Qed.

Lemma handleReminderResponse_negative
      (env : Config) (req : Request) (m : option Match) (w : World) :
  is_negative (text req) = true ->
  handleReminderResponse env req m w
  = (send_completion w,
     reply_with [msg_optout env] (with_askedReminder false) w).
Proof.
  intros Hn. unfold handleReminderResponse.
  destruct (is_affirmative (text req)) eqn:Ha.
  - apply affirmative_not_negative in Ha. congruence.
  - rewrite Hn. reflexivity.
Qed.

Lemma handleReminderResponse_unrecognised
      (env : Config) (req : Request) (m : option Match) (w : World) :
  is_affirmative (text req) = false ->
  is_negative (text req) = false ->
  handleReminderResponse env req m w = (Normal tt, w).
Proof. intros Ha Hn. unfold handleReminderResponse. now rewrite Ha, Hn. Qed.

Lemma answer_queued_not_asked (env : Config) (req : Request) (w : World) :
  truthy (askedQueued (session w)) = false ->
  answer_queued env req w = (Normal false, w).
Proof. intros H. unfold answer_queued. unfold_js. now rewrite H. Qed.

Lemma answer_queued_affirmative (env : Config) (req : Request) (w : World) :
  truthy (askedQueued (session w)) = true ->
  is_affirmative (text req) = true ->
  answer_queued env req w
  = (Normal false,
     log_issued [PAddQueued {| ql_citationId := citationId (session w);
                               ql_phone := From req |}] w).
Proof. intros H Ha. unfold answer_queued. unfold_js. now rewrite H, Ha. Qed.

Lemma answer_queued_negative (env : Config) (req : Request) (w : World) :
  truthy (askedQueued (session w)) = true ->
  is_negative (text req) = true ->
  answer_queued env req w
  = (match send_completion w with
     | Normal _ => Normal true
     | Throw e => Throw e
     end,
     reply_with [msg_optout env] (with_askedQueued false) w).
Proof.
  intros H Hn. unfold answer_queued. unfold_js. rewrite H.
  destruct (is_affirmative (text req)) eqn:Ha.
  - apply affirmative_not_negative in Ha. congruence.
  - rewrite Hn. unfold reply_with, send_completion, send_cookie. cbn.
    now destruct (sent w).
Qed.

Lemma answer_queued_unrecognised (env : Config) (req : Request) (w : World) :
  is_affirmative (text req) = false ->
  is_negative (text req) = false ->
  answer_queued env req w = (Normal false, w).
Proof.
  intros Ha Hn. unfold answer_queued. unfold_js.
  rewrite Ha, Hn. now destruct (truthy (askedQueued (session w))).
Qed.

Lemma on_addQueued_eq (env : Config) (err : option string) (w : World) :
  on_addQueued env err w
  = (send_completion w,
     reply_with [msg_queued env] (with_askedQueued false)
       (log_next match err with Some e => [e] | None => [] end w)).
Proof.
  unfold on_addQueued, reply_with, log_next. unfold_js.
  destruct err; cbn; rewrite ?app_nil_r; reflexivity.
Qed.

Lemma on_findAskedQueued_unrecognised
      (env : Config) (req : Request) (r : string + list QueuedRow) (w : World) :
  is_affirmative (text req) = false ->
  is_negative (text req) = false ->
  on_findAskedQueued env req r w
  = (Normal tt, log_next match r with inl e => [e] | inr _ => [] end w).
Proof.
  intros Ha Hn. unfold on_findAskedQueued, log_next.
  destruct r as [e | [|row [|row' l]]]; cbn;
    rewrite ?handleReminderResponse_unrecognised by assumption;
    unfold_js; rewrite ?app_nil_r, ?world_eta; reflexivity.
Qed.

Lemma on_findAskedQueued_not_single
      (env : Config) (req : Request) (r : string + list QueuedRow) (w : World) :
  (forall row, r <> inr [row]) ->
  on_findAskedQueued env req r w
  = (Normal tt, log_next match r with inl e => [e] | inr _ => [] end w).
Proof.
  intros H. unfold on_findAskedQueued, log_next.
  destruct r as [e | [|row [|row' l]]]; cbn;
    unfold_js; rewrite ?app_nil_r, ?world_eta; try reflexivity.
  now destruct (H row).
Qed.

Lemma on_findAskedQueued_single
      (env : Config) (req : Request) (row : QueuedRow) (w : World) :
  on_findAskedQueued env req (inr [row]) w
  = handleReminderResponse env req (Some (QueuedMatch row)) w.
Proof. reflexivity. Qed.

(** ** The handler on a text that is no confirmation word *)

Lemma handler_unrecognised (db : Db) (env : Config) (req : Request) :
  is_affirmative (text req) = false ->
  is_negative (text req) = false ->
  let results := findCitation db (text req) in
  handler db env req
  = (Normal tt,
     {| session := lookup_session req results (req_session req);
        twiml := lookup_messages env req results;
        sent := [lookup_messages env req results];
        nexts := queue_lookup_errors db req;
        reminders := [];
        issued := (if truthy (askedReminder (req_session req)) then []
                   else [PFindAskedQueued (From req)])
                  ++ [PFindCitation (text req)];
        cookie := Some (lookup_session req results (req_session req)) |}).
Proof.
  intros Ha Hn results. subst results.
  unfold handler, handler_sync, queue_lookup_errors.
  unfold bind at 1 2 3, get_session at 1. unfold init_world at 1.
  cbn [session].
  destruct (truthy (askedReminder (req_session req))).
  - rewrite handleReminderResponse_unrecognised by assumption.
    rewrite answer_queued_unrecognised by assumption.
    unfold issue, event_loop, init_world.
    cbn [issued app fold_left run_callback snd].
    rewrite on_findCitation_eq. reflexivity.
  - unfold issue at 1.
    rewrite answer_queued_unrecognised by assumption.
    unfold issue, event_loop, init_world.
    cbn [issued app fold_left run_callback snd].
    rewrite on_findAskedQueued_unrecognised by assumption.
    rewrite on_findCitation_eq. cbn.
    destruct (findAskedQueued db (From req)); reflexivity.
Qed.

Lemma handler_idle (db : Db) (env : Config) (req : Request) :
  idle db req ->
  let results := findCitation db (text req) in
  handler db env req
  = (Normal tt,
     {| session := lookup_session req results (req_session req);
        twiml := lookup_messages env req results;
        sent := [lookup_messages env req results];
        nexts := queue_lookup_errors db req;
        reminders := [];
        issued := [PFindAskedQueued (From req); PFindCitation (text req)];
        cookie := Some (lookup_session req results (req_session req)) |}).
Proof.
  intros (Hr & Hq & Hrow) results. subst results.
  unfold handler, handler_sync, queue_lookup_errors.
  unfold bind at 1 2 3, get_session at 1. unfold init_world at 1.
  cbn [session]. rewrite Hr. unfold issue at 1.
  rewrite answer_queued_not_asked by exact Hq.
  unfold issue, event_loop, init_world.
  cbn [issued app fold_left run_callback snd].
  rewrite on_findAskedQueued_not_single by exact Hrow.
  rewrite on_findCitation_eq. cbn.
  destruct (findAskedQueued db (From req)); reflexivity.
Qed.

Lemma no_unique_of_length (rs : list CaseRecord) :
  List.length rs <> 1 -> no_unique_case (Some rs) = true.
Proof.
  destruct rs as [|a [|b l]]; intros H; [reflexivity | | reflexivity].
  now destruct H.
Qed.

Lemma correctLength_true (req : Request) :
  6 <= String.length (text req) <= 25 -> correctLengthCitation req = true.
Proof.
  intros [H1 H2]. unfold correctLengthCitation.
  apply andb_true_intro. split; apply Nat.leb_le; assumption.
Qed.

Lemma correctLength_false (req : Request) :
  String.length (text req) < 6 \/ 25 < String.length (text req) ->
  correctLengthCitation req = false.
Proof.
  intros H. unfold correctLengthCitation.
  apply andb_false_iff. rewrite !Nat.leb_gt. lia.
Qed.

(** ** The lookup branches *)

(** C1.  A citation text of 6 to 25 characters for which the citation
    store returns no record or several: the handler sets [askedQueued],
    stores the text as [citationId], leaves [askedReminder] and the stored
    match as they were, and sends one reply, the two-part offer to keep
    checking, whose parts start with "(1/2)" and "(2/2)". *)
Theorem unfound_citation_offers_queue
        (db : Db) (env : Config) (req : Request) (rs : list CaseRecord) :
  6 <= String.length (text req) <= 25 ->
  findCitation db (text req) = Some rs ->
  List.length rs <> 1 ->
  session_after db env req
  = {| askedReminder := askedReminder (req_session req);
       askedQueued := Some true;
       session_match := session_match (req_session req);
       citationId := Some (text req) |} /\
  replies db env req = [[msg_notfound_1; msg_notfound_2 env]] /\
  prefix "(1/2)" msg_notfound_1 = true /\
  prefix "(2/2)" (msg_notfound_2 env) = true.
Proof.
  intros Hlen Hrs Hlen1.
  destruct (long_text_unrecognised (text req) (proj1 Hlen)) as [Ha Hn].
  unfold session_after, replies.
  rewrite (handler_unrecognised db env req Ha Hn). cbn [snd session sent].
  unfold lookup_session, lookup_messages.
  rewrite Hrs, (no_unique_of_length rs Hlen1), (correctLength_true req Hlen).
  repeat split; reflexivity.
Qed.

(** C5.  A sender with no question pending sends a text shorter than 6 or
    longer than 25 characters that has no unique match: the only reply is
    the format-error message and the session is left as it was, so no flag
    and no citation are stored. *)
Theorem malformed_citation_format_error
        (db : Db) (env : Config) (req : Request) :
  idle db req ->
  no_unique_case (findCitation db (text req)) = true ->
  String.length (text req) < 6 \/ 25 < String.length (text req) ->
  replies db env req = [[msg_format]] /\
  session_after db env req = req_session req.
Proof.
  intros Hidle Hno Hlen.
  unfold session_after, replies.
  rewrite (handler_idle db env req Hidle). cbn [snd session sent].
  unfold lookup_session, lookup_messages.
  rewrite Hno, (correctLength_false req Hlen). split; reflexivity.
Qed.

(** C7.  When the citation store returns several records the handler does
    exactly what it does when the store returns none: same completion,
    same replies, same session, same calls. *)
Theorem ambiguous_match_as_no_match
        (db : Db) (env : Config) (req : Request) (rs : list CaseRecord) :
  1 < List.length rs ->
  handler (citations_return db (Some rs)) env req
  = handler (citations_return db (Some [])) env req.
Proof.
  intros Hlen. unfold handler.
  destruct (handler_sync env req (init_world (req_session req))) as [c w].
  f_equal. unfold event_loop. generalize (issued w) as ps. revert w.
  intros w ps. revert w.
  induction ps as [|p ps IH]; intros w; [reflexivity|].
  cbn [fold_left]. rewrite <- IH. f_equal.
  destruct p as [phone | q | t]; cbn [run_callback citations_return
    findAskedQueued addQueued findCitation]; try reflexivity.
  rewrite !on_findCitation_eq. unfold lookup_messages, lookup_session.
  destruct rs as [|a [|b l]]; cbn in Hlen; try lia. reflexivity.
Qed.

(** C1, an instance: "abc123" from a new sender, nothing in the store. *)
Lemma unfound_citation_offers_queue_witness :
  session_after quiet_db example_env (request "abc123" empty_session)
  = {| askedReminder := None; askedQueued := Some true;
       session_match := None; citationId := Some "ABC123" |} /\
  replies quiet_db example_env (request "abc123" empty_session)
  = [[msg_notfound_1; msg_notfound_2 example_env]] /\
  prefix "(1/2)" msg_notfound_1 = true /\
  prefix "(2/2)" (msg_notfound_2 example_env) = true.
Proof.
  apply (unfound_citation_offers_queue quiet_db example_env
           (request "abc123" empty_session) []).
  - vm_compute. lia.
  - reflexivity.
  - simpl. lia.
Defined.

(** C5, an instance: "123" from a new sender, nothing in the store. *)
Lemma malformed_citation_format_error_witness :
  replies quiet_db example_env (request "123" empty_session) = [[msg_format]] /\
  session_after quiet_db example_env (request "123" empty_session)
  = empty_session.
Proof.
  apply (malformed_citation_format_error quiet_db example_env
           (request "123" empty_session)).
  - repeat split; try reflexivity. intros row. discriminate.
  - reflexivity.
  - left. vm_compute. lia.
Defined.

(** C7, an instance: two records for "ABC123". *)
Lemma ambiguous_match_as_no_match_witness :
  handler (citations_return quiet_db (Some [example_case; example_case]))
          example_env (request "abc123" empty_session)
  = handler (citations_return quiet_db (Some []))
            example_env (request "abc123" empty_session).
Proof.
  apply (ambiguous_match_as_no_match quiet_db example_env
           (request "abc123" empty_session) [example_case; example_case]).
  simpl. lia.
Defined.

(** ** An unrecognised answer to a pending question *)

Lemma lookup_messages_nonempty (env : Config) (req : Request)
      (results : option (list CaseRecord)) :
  lookup_messages env req results <> [].
Proof.
  unfold lookup_messages.
  destruct results as [[|m [|m' l]]|]; simpl;
    try destruct (correctLengthCitation req); discriminate.
Qed.

(** C2, as the code has it.  A text that is neither affirmative nor
    negative is looked up as a citation, whatever question is pending: the
    handler sends exactly one reply, the one the lookup produces, and the
    session changes as the lookup dictates.  When the text has no unique
    match and its length is outside 6..25 (such as "maybe") the reply is
    the format-error message and the session is unchanged. *)
Theorem unrecognised_answer_is_looked_up
        (db : Db) (env : Config) (req : Request) :
  is_affirmative (text req) = false ->
  is_negative (text req) = false ->
  let results := findCitation db (text req) in
  replies db env req = [lookup_messages env req results] /\
  lookup_messages env req results <> [] /\
  session_after db env req = lookup_session req results (req_session req) /\
  (no_unique_case results = true ->
   correctLengthCitation req = false ->
   replies db env req = [[msg_format]] /\
   session_after db env req = req_session req).
Proof.
  intros Ha Hn results. unfold session_after, replies.
  rewrite (handler_unrecognised db env req Ha Hn). cbn [snd session sent].
  fold results. split; [reflexivity|]. split; [|split].
  - apply lookup_messages_nonempty.
  - reflexivity.
  - intros Hno Hlen. unfold lookup_messages, lookup_session.
    now rewrite Hno, Hlen.
Qed.

(** C2, an instance: "maybe" while the queue question is pending. *)
Lemma unrecognised_answer_is_looked_up_witness :
  replies quiet_db example_env (request "maybe" awaiting_queue)
  = [[msg_format]] /\
  session_after quiet_db example_env (request "maybe" awaiting_queue)
  = awaiting_queue.
Proof.
  apply (unrecognised_answer_is_looked_up quiet_db example_env
           (request "maybe" awaiting_queue)); reflexivity.
Defined.

(** C2 as stated fails: "maybe" while the queue question is pending does
    produce an outbound message. *)
Lemma maybe_is_answered :
  ~ (replies quiet_db example_env (request "maybe" awaiting_queue) = [] /\
     session_after quiet_db example_env (request "maybe" awaiting_queue)
     = awaiting_queue).
Proof. intros [H _]. vm_compute in H. discriminate. Qed.

(** ** The case summary *)

Lemma title_run_title_case_spec (s : string) :
  (tokens_start_with_word true s = true ->
   title_run false s = title_case_spec_from true s) /\
  (tokens_start_with_word false s = true ->
   title_run true s = title_case_spec_from false s).
Proof.
  induction s as [|c s [IHt IHf]]; [now split|].
  split; cbn [tokens_start_with_word title_run title_case_spec_from];
    destruct (is_space c) eqn:E.
  - rewrite (space_not_word c E). intros H. now rewrite IHt.
  - intros H. apply andb_prop in H as [Hw Hs]. rewrite Hw. now rewrite IHf.
  - intros H. now rewrite IHt.
  - intros H. cbn in H. now rewrite IHf.
Qed.

Lemma on_findCitation_unique (env : Config) (req : Request)
      (m : CaseRecord) (w : World) :
  on_findCitation env req (Some [m]) w
  = (send_completion w,
     reply_with [msg_found m]
       (fun s => with_askedReminder true (with_match (CaseMatch m) s)) w).
Proof. rewrite on_findCitation_eq. reflexivity. Qed.

(** *** The date and the time of the summary *)

Ltac bool_to_Z :=
  repeat match goal with
    | H : (_ <? _)%Z = true |- _ => apply Z.ltb_lt in H
    | H : (_ <? _)%Z = false |- _ => apply Z.ltb_ge in H
    | H : (_ <=? _)%Z = true |- _ => apply Z.leb_le in H
    | H : (_ <=? _)%Z = false |- _ => apply Z.leb_gt in H
    | H : (_ =? _)%Z = true |- _ => apply Z.eqb_eq in H
    | H : (_ =? _)%Z = false |- _ => apply Z.eqb_neq in H
    | H : (_ && _) = true |- _ => apply andb_prop in H as [? ?]
    | H : (_ || _) = false |- _ => apply orb_false_elim in H as [? ?]
    | H : negb _ = true |- _ => apply negb_true_iff in H
    | H : negb _ = false |- _ => apply negb_false_iff in H
    end.

(** [days_from_civil] counts days: the day after a date of the Gregorian
    calendar has the next number, across the ends of months and years
    and the 29th of February of leap years. *)
Lemma days_from_civil_next_day (d : Moment.Date) :
  Moment.valid_date d = true ->
  Moment.days_from_civil (Moment.next_day d)
  = (Moment.days_from_civil d + 1)%Z.
Proof.
  destruct d as [y m dd].
  unfold Moment.valid_date, Moment.next_day, Moment.days_in_month,
    Moment.is_leap.
  cbn [Moment.year Moment.month Moment.day].
  intros H. apply andb_prop in H as [H Hd2]. apply andb_prop in H as [H Hd1].
  apply andb_prop in H as [Hm1 Hm2].
  apply Z.leb_le in Hm1, Hm2, Hd1.
  assert (Hm : (m = 1 \/ m = 2 \/ m = 3 \/ m = 4 \/ m = 5 \/ m = 6 \/ m = 7
                \/ m = 8 \/ m = 9 \/ m = 10 \/ m = 11 \/ m = 12)%Z) by lia.
  destruct Hm as [-> | [-> | [-> | [-> | [-> | [-> | [-> | [-> | [-> | [->
                 | [-> | ->]]]]]]]]]]];
    cbn [Z.eqb Pos.eqb orb] in *;
    unfold Moment.days_from_civil;
    cbn [Moment.year Moment.month Moment.day];
    repeat match goal with
           | |- context [if ?b then _ else _] => destruct b eqn:?
           | H : context [if ?b then _ else _] |- _ => destruct b eqn:?
           end;
    bool_to_Z; cbn [Moment.year Moment.month Moment.day] in *;
    try lia; Z.div_mod_to_equations; lia.
Qed.

Lemma weekday_range (d : Moment.Date) : (0 <= Moment.weekday d < 7)%Z.
Proof. unfold Moment.weekday. apply Z.mod_pos_bound. lia. Qed.

(** The day after a date falls on the next day of the week. *)
Lemma weekday_next_day (d : Moment.Date) :
  Moment.valid_date d = true ->
  Moment.weekday (Moment.next_day d) = ((Moment.weekday d + 1) mod 7)%Z.
Proof.
  intros H. unfold Moment.weekday. rewrite (days_from_civil_next_day d H).
  rewrite Zplus_mod_idemp_l. f_equal. lia.
Qed.

(** The suffix moment gives to the day of the month is that of the
    English ordinal. *)
Lemma ordinal_suffix_eq (n : Z) :
  Moment.ordinal n
  = String.append (Moment.decimal n) (Moment.ordinal_suffix n).
Proof.
  unfold Moment.ordinal, Moment.ordinal_suffix. cbv zeta. f_equal.
  destruct ((n mod 100 / 10 =? 1)%Z) eqn:E1;
    destruct ((11 <=? n mod 100)%Z && (n mod 100 <=? 13)%Z) eqn:E2;
    destruct ((n mod 10 =? 1)%Z) eqn:E3;
    destruct ((n mod 10 =? 2)%Z) eqn:E4;
    destruct ((n mod 10 =? 3)%Z) eqn:E5; try reflexivity;
    exfalso;
    try (apply andb_false_iff in E2; destruct E2);
    bool_to_Z; Z.div_mod_to_equations; lia.
Qed.

Lemma pad2_length (n : Z) :
  (0 <= n < 60)%Z -> String.length (Moment.pad2 n) = 2.
Proof.
  intros H. rewrite <- (Z2Nat.id n) by lia.
  assert (Hn : Z.to_nat n < 60) by lia. revert Hn.
  generalize (Z.to_nat n) as k. intros k.
  do 60 (destruct k as [|k]; [reflexivity|]). lia.
Qed.

Lemma hour12_range (c : Moment.Clock) :
  (1 <= Moment.hour12 c <= 12)%Z /\
  ((Moment.hour12 c - Moment.hour c) mod 12 = 0)%Z.
Proof.
  unfold Moment.hour12.
  destruct ((Moment.hour c mod 12 =? 0)%Z) eqn:E; bool_to_Z;
    Z.div_mod_to_equations; lia.
Qed.

(** ['ddd, MMM Do'] on a date of the calendar: the name of its day of the
    week, the name of its month, its day with the ordinal suffix. *)
Lemma format_ddd_MMM_Do_shape (d : Moment.Date) :
  Moment.valid_date d = true ->
  exists ddd MMM,
    nth_error Moment.weekdaysShort (Z.to_nat (Moment.weekday d)) = Some ddd /\
    nth_error Moment.monthsShort (Z.to_nat (Moment.month d - 1)) = Some MMM /\
    Moment.format_ddd_MMM_Do d
    = ddd ++ ", " ++ MMM ++ " " ++ Moment.decimal (Moment.day d)
      ++ Moment.ordinal_suffix (Moment.day d).
Proof.
  intros H. unfold Moment.valid_date in H. bool_to_Z.
  pose proof (weekday_range d) as Hw.
  exists (nth (Z.to_nat (Moment.weekday d)) Moment.weekdaysShort "").
  exists (nth (Z.to_nat (Moment.month d - 1)) Moment.monthsShort "").
  split; [|split].
  - apply nth_error_nth'. cbn. lia.
  - apply nth_error_nth'. cbn. lia.
  - unfold Moment.format_ddd_MMM_Do. cbv zeta.
    now rewrite ordinal_suffix_eq.
Qed.

(** ['h:mm A'] on a clock: the hour of the 12-hour clock, from 1 to 12,
    the minute on two digits, AM before noon and PM from noon on. *)
Lemma format_h_mm_A_shape (c : Moment.Clock) :
  Moment.valid_clock c = true ->
  exists h mm,
    (1 <= h <= 12)%Z /\ ((h - Moment.hour c) mod 12 = 0)%Z /\
    mm = Moment.pad2 (Moment.minute c) /\ String.length mm = 2 /\
    Moment.format_h_mm_A (Some c)
    = Moment.decimal h ++ ":" ++ mm ++ " "
      ++ (if (Moment.hour c <? 12)%Z then "AM" else "PM").
Proof.
  intros H. unfold Moment.valid_clock in H. bool_to_Z.
  exists (Moment.hour12 c), (Moment.pad2 (Moment.minute c)).
  destruct (hour12_range c) as [Hh Hmod].
  repeat split; try assumption; try lia.
  apply pad2_length. lia.
Qed.

(** Some dates and times: the ends of months and years, a leap day, the
    ordinals of the teens, midnight and noon. *)
Lemma format_instances :
  map Moment.format_ddd_MMM_Do
      [{| Moment.year := 2000; Moment.month := 1; Moment.day := 1 |};
       {| Moment.year := 2024; Moment.month := 2; Moment.day := 29 |};
       {| Moment.year := 2021; Moment.month := 6; Moment.day := 3 |};
       {| Moment.year := 2019; Moment.month := 11; Moment.day := 11 |};
       {| Moment.year := 2022; Moment.month := 5; Moment.day := 12 |};
       {| Moment.year := 2022; Moment.month := 5; Moment.day := 13 |};
       {| Moment.year := 2023; Moment.month := 12; Moment.day := 22 |};
       {| Moment.year := 2023; Moment.month := 12; Moment.day := 31 |}]%Z
  = ["Sat, Jan 1st"; "Thu, Feb 29th"; "Thu, Jun 3rd"; "Mon, Nov 11th";
     "Thu, May 12th"; "Fri, May 13th"; "Fri, Dec 22nd"; "Sun, Dec 31st"] /\
  map (fun t => Moment.format_h_mm_A (Moment.read_HH_mm t))
      ["00:00"; "09:05"; "11:59"; "12:00"; "23:07"]
  = ["12:00 AM"; "9:05 AM"; "11:59 AM"; "12:00 PM"; "11:07 PM"].
Proof. split; reflexivity. Qed.

(** C6, as the code has it.  On a unique match the callback of the lookup
    adds one message to the reply, the case summary, passes it to
    [res.send], stores the case as [match] and sets [askedReminder]; for a
    text that is no confirmation word that summary is the whole reply and
    the session is carried to the next message.  The summary names the
    defendant through [cleanupName]: the name is trimmed and, in every
    blank-delimited token, the first word character is upper-cased and what
    follows it lower-cased, the characters before it being kept; this is
    title case of the token when the token starts with a word character.
    The date of the case is rendered as the name of its day of the week
    (the day after a date falls on the next day of the week, and
    1970-01-01 is a Thursday), the name of its month and its day with the
    ordinal suffix; the clock that moment reads from the time on
    1980-01-01 is rendered as the hour from 1 to 12, the minute on two
    digits, and AM or PM, and a time that moment cannot read as
    "Invalid date"; the summary ends with the reminder prompt.  For
    "john q public", 2024-03-04, "14:30", room "101" the summary reads
    "John Q Public", "Mon, Mar 4th", "2:30 PM". *)
Theorem unique_match_summary
        (db : Db) (env : Config) (req : Request) (m : CaseRecord) (w : World) :
  on_findCitation env req (Some [m]) w
  = (send_completion w,
     reply_with [msg_found m]
       (fun s => with_askedReminder true (with_match (CaseMatch m) s)) w) /\
  (is_affirmative (text req) = false ->
   is_negative (text req) = false ->
   findCitation db (text req) = Some [m] ->
   fst (handler db env req) = Normal tt /\
   replies db env req = [[msg_found m]] /\
   session_after db env req
   = {| askedReminder := Some true;
        askedQueued := askedQueued (req_session req);
        session_match := Some (CaseMatch m);
        citationId := citationId (req_session req) |}) /\
  (let name := cleanupName (c_defendant m) in
   let date := Moment.format_ddd_MMM_Do (c_date m) in
   let time := Moment.format_h_mm_A (c_time m) in
     msg_found m
     = "Found a case for " ++ name ++ " scheduled on " ++ date ++ " at "
       ++ time ++ ", at " ++ c_room m
       ++ ". Would you like a courtesy reminder the day before? (reply YES or NO)" /\
     name = title_run false (trim (c_defendant m)) /\
     (tokens_start_with_word true (trim (c_defendant m)) = true ->
      name = title_case_spec (trim (c_defendant m))) /\
     (Moment.valid_date (c_date m) = true ->
      exists ddd MMM,
        nth_error Moment.weekdaysShort
                  (Z.to_nat (Moment.weekday (c_date m))) = Some ddd /\
        nth_error Moment.monthsShort
                  (Z.to_nat (Moment.month (c_date m) - 1)) = Some MMM /\
        date = ddd ++ ", " ++ MMM ++ " "
               ++ Moment.decimal (Moment.day (c_date m))
               ++ Moment.ordinal_suffix (Moment.day (c_date m))) /\
     (forall c, c_time m = Some c -> Moment.valid_clock c = true ->
      exists h mm,
        (1 <= h <= 12)%Z /\ ((h - Moment.hour c) mod 12 = 0)%Z /\
        mm = Moment.pad2 (Moment.minute c) /\ String.length mm = 2 /\
        time = Moment.decimal h ++ ":" ++ mm ++ " "
               ++ (if (Moment.hour c <? 12)%Z then "AM" else "PM")) /\
     (c_time m = None -> time = "Invalid date")) /\
  (Moment.valid_date (c_date m) = true ->
   Moment.weekday (Moment.next_day (c_date m))
   = ((Moment.weekday (c_date m) + 1) mod 7)%Z) /\
  Moment.weekday {| Moment.year := 1970; Moment.month := 1; Moment.day := 1 |}
  = 4%Z /\
  c_time example_case = Some {| Moment.hour := 14; Moment.minute := 30 |} /\
  msg_found example_case
  = "Found a case for John Q Public scheduled on Mon, Mar 4th at 2:30 PM, at 101. Would you like a courtesy reminder the day before? (reply YES or NO)".
Proof.
  split; [apply on_findCitation_unique|]. split; [|split; [|split; [|split]]].
  - intros Ha Hn Hm. unfold session_after, replies.
    rewrite (handler_unrecognised db env req Ha Hn).
    cbn [fst snd session sent carried cookie].
    unfold lookup_messages, lookup_session. rewrite Hm. now repeat split.
  - cbv zeta.
    split; [reflexivity|]. split; [apply cleanupName_title_run|].
    split; [|split; [|split]].
    + intros H. rewrite cleanupName_title_run.
      now apply title_run_title_case_spec.
    + apply format_ddd_MMM_Do_shape.
    + intros c -> Hc. now apply format_h_mm_A_shape.
    + now intros ->.
  - apply weekday_next_day.
  - reflexivity.
  - split; reflexivity.
Qed.

(** C6, an instance: citation "Z-9" found once. *)
Lemma unique_match_summary_witness :
  replies (citations_return quiet_db (Some [example_case])) example_env
          (request "Z-9" empty_session)
  = [["Found a case for John Q Public scheduled on Mon, Mar 4th at 2:30 PM, at 101. Would you like a courtesy reminder the day before? (reply YES or NO)"]] /\
  session_after (citations_return quiet_db (Some [example_case])) example_env
                (request "Z-9" empty_session)
  = {| askedReminder := Some true; askedQueued := None;
       session_match := Some (CaseMatch example_case); citationId := None |}.
Proof.
  apply (unique_match_summary
           (citations_return quiet_db (Some [example_case])) example_env
           (request "Z-9" empty_session) example_case
           (init_world empty_session)); reflexivity.
Defined.

(** C6 as stated fails: a token that starts with a bracket keeps its
    first letter in upper case, where title case of the token as a whole
    would lower it. *)
Lemma summary_name_not_title_case :
  cleanupName "DOE (AKA SMITH)" = "Doe (Aka Smith)" /\
  title_case_spec "DOE (AKA SMITH)" = "Doe (aka Smith)" /\
  msg_found aka_case <> msg_found_spec aka_case.
Proof.
  split; [reflexivity|]. split; [reflexivity|].
  vm_compute. discriminate.
Qed.

(** ** The query text *)

Lemma text_cases (t : string) :
  (is_affirmative t = true /\ is_negative t = false) \/
  (is_affirmative t = false /\ is_negative t = true) \/
  (is_affirmative t = false /\ is_negative t = false).
Proof.
  destruct (is_affirmative t) eqn:Ha.
  - left. split; [reflexivity|]. now apply affirmative_not_negative.
  - destruct (is_negative t); auto.
Qed.

Lemma handleReminderResponse_issued
      (env : Config) (req : Request) (m : option Match) (w : World) :
  issued (snd (handleReminderResponse env req m w)) = issued w.
Proof.
  destruct (text_cases (text req)) as [[Ha Hn] | [[Ha Hn] | [Ha Hn]]].
  - destruct m as [m|].
    + now rewrite handleReminderResponse_affirmative.
    + now rewrite handleReminderResponse_no_match.
  - now rewrite handleReminderResponse_negative.
  - now rewrite handleReminderResponse_unrecognised.
Qed.

Lemma run_callback_issued
      (db : Db) (env : Config) (req : Request) (p : Pending) (w : World) :
  issued (snd (run_callback db env req p w)) = issued w.
Proof.
  destruct p as [phone | q | t]; cbn [run_callback].
  - unfold on_findAskedQueued.
    destruct (findAskedQueued db phone) as [e | [|row [|row' l]]];
      try reflexivity.
    apply handleReminderResponse_issued.
  - now rewrite on_addQueued_eq.
  - now rewrite on_findCitation_eq.
Qed.

Lemma event_loop_issued
      (db : Db) (env : Config) (req : Request) (ps : list Pending) (w : World) :
  issued (event_loop db env req ps w) = issued w.
Proof.
  unfold event_loop. revert w.
  induction ps as [|p ps IH]; intros w; [reflexivity|].
  cbn [fold_left]. rewrite IH. apply run_callback_issued.
Qed.

Lemma handler_issued (db : Db) (env : Config) (req : Request) :
  issued (snd (handler db env req))
  = issued (snd (handler_sync env req (init_world (req_session req)))).
Proof.
  unfold handler.
  destruct (handler_sync env req (init_world (req_session req))) as [c w].
  apply event_loop_issued.
Qed.

Lemma answer_queued_issued (env : Config) (req : Request) (w : World) :
  forall t, In (PFindCitation t) (issued (snd (answer_queued env req w))) ->
            In (PFindCitation t) (issued w).
Proof.
  intros t.
  destruct (truthy (askedQueued (session w))) eqn:Hq;
    [|now rewrite answer_queued_not_asked].
  destruct (text_cases (text req)) as [[Ha Hn] | [[Ha Hn] | [Ha Hn]]].
  - rewrite answer_queued_affirmative by assumption. cbn.
    rewrite in_app_iff. intros [H | H]; [exact H|].
    cbn in H. destruct H as [H | []]. discriminate.
  - now rewrite answer_queued_negative.
  - now rewrite answer_queued_unrecognised.
Qed.

Lemma handler_sync_lookup_text (env : Config) (req : Request) (t : string) :
  In (PFindCitation t)
     (issued (snd (handler_sync env req (init_world (req_session req))))) ->
  t = text req.
Proof.
  unfold handler_sync. unfold bind at 1 2, get_session at 1.
  set (w0 := init_world (req_session req)).
  assert (H1 : forall w1,
             (forall t', ~ In (PFindCitation t') (issued w1)) ->
             In (PFindCitation t)
                (issued (snd ((returned <- answer_queued env req ;;
                               if returned then ret tt
                               else issue (PFindCitation (text req)))%js w1))) ->
             t = text req).
  { intros w1 Hw1. unfold bind.
    pose proof (answer_queued_issued env req w1) as Hq.
    destruct (answer_queued env req w1) as [[[|]|e] w2]; cbn in *.
    - intros H. now apply Hq, Hw1 in H.
    - rewrite in_app_iff. intros [H | H].
      + now apply Hq, Hw1 in H.
      + cbn in H. destruct H as [H | []]. congruence.
    - intros H. now apply Hq, Hw1 in H. }
  destruct (truthy (askedReminder (session w0))).
  - pose proof (handleReminderResponse_issued env req
                  (session_match (session w0)) w0) as Hi.
    destruct (handleReminderResponse env req (session_match (session w0)) w0)
      as [[[]|e] w1]; cbn in Hi.
    + apply H1. intros t'. rewrite Hi. exact (fun H => H).
    + cbn. rewrite Hi. intros [].
  - unfold issue at 1. apply H1. cbn. intros t' [H | []]. discriminate.
Qed.

(** C8, as the code has it.  The text the handler looks up and validates
    is the raw body upper-cased, with its blanks kept: every citation
    lookup the handler issues is on [Body.toUpperCase()], the length that
    is checked against 6..25 is the length of that text, and a text that
    is no confirmation word is always looked up. *)
Theorem query_text_is_upper_cased_body
        (db : Db) (env : Config) (req : Request) :
  (forall t, In (PFindCitation t) (issued (snd (handler db env req))) ->
             t = toUpperCase (Body req)) /\
  (is_affirmative (text req) = false ->
   is_negative (text req) = false ->
   In (PFindCitation (toUpperCase (Body req)))
      (issued (snd (handler db env req)))) /\
  correctLengthCitation req
  = ((6 <=? String.length (toUpperCase (Body req)))
     && (String.length (toUpperCase (Body req)) <=? 25))%nat.
Proof.
  split; [|split].
  - intros t. rewrite handler_issued. apply handler_sync_lookup_text.
  - intros Ha Hn. rewrite (handler_unrecognised db env req Ha Hn).
    cbn [snd issued]. apply in_or_app. right. now left.
  - reflexivity.
Qed.

(** C8, an instance: a body with a trailing blank. *)
Lemma query_text_is_upper_cased_body_witness :
  In (PFindCitation "ABC12 ")
     (issued (snd (handler quiet_db example_env
                           (request "abc12 " empty_session)))).
Proof.
  apply (query_text_is_upper_cased_body quiet_db example_env
           (request "abc12 " empty_session)); reflexivity.
Defined.

(** C8 as stated fails: the body "abc12 " is looked up with its blank and
    passes the length check, so it is offered the queue; trimmed it would
    be "ABC12", five characters, and get the format error. *)
Lemma query_text_is_not_trimmed :
  ~ In (PFindCitation (queryText_spec "abc12 "))
       (issued (snd (handler quiet_db example_env
                             (request "abc12 " empty_session)))) /\
  queryText_spec "abc12 " = "ABC12" /\
  replies quiet_db example_env (request "abc12 " empty_session)
  = [[msg_notfound_1; msg_notfound_2 example_env]].
Proof.
  split; [|split; reflexivity].
  vm_compute. intros [H | [H | []]]; discriminate.
Qed.

(** ** A confirmation word while the reminder question is pending *)

Ltac fields :=
  cbn [issued session twiml sent nexts reminders cookie app fold_left
       run_callback snd fst hd_error List.length].

Ltac run_sync :=
  unfold handler, handler_sync, bind, get_session, init_world;
  cbn [session].

(** What a call of [res.send] did, once the replies before it are known. *)
Ltac sends :=
  unfold send_completion, send_cookie, reply_with, log_reminder, log_next,
    log_issued;
  fields.

Ltac run_loop :=
  unfold issue, ret, event_loop, init_world; sends;
  rewrite ?on_addQueued_eq, ?on_findCitation_eq;
  sends.

(** C9, as the code has it.  The reminder question is pending, with its
    match, and the text is a confirmation word.  The confirmation is the
    first reply and it is never the only one: the handler calls [res.send]
    at least twice.  When the queue flag is not set the handler goes on to
    the citation lookup of the same text, whose callback sends the
    confirmation again with the lookup's messages after it.  When the queue
    flag is set as well, the queue block sends the second reply; after an
    affirmative text the lookup still runs and sends a third, after a
    negative text the handler returns and no lookup is issued. *)
Theorem confirmation_is_also_looked_up
        (db : Db) (env : Config) (req : Request) (m : Match) :
  truthy (askedReminder (req_session req)) = true ->
  session_match (req_session req) = Some m ->
  is_affirmative (text req) = true \/ is_negative (text req) = true ->
  let confirmation :=
    if is_affirmative (text req)
    then [msg_reminder_1; msg_reminder_2 env]
    else [msg_optout env] in
  let found := lookup_messages env req (findCitation db (text req)) in
  let w := snd (handler db env req) in
  hd_error (sent w) = Some confirmation /\
  2 <= List.length (sent w) /\
  (truthy (askedQueued (req_session req)) = false ->
   issued w = [PFindCitation (text req)] /\
   sent w = [confirmation; confirmation ++ found]%list) /\
  (truthy (askedQueued (req_session req)) = true ->
   is_affirmative (text req) = true ->
   issued w = [PAddQueued {| ql_citationId := citationId (req_session req);
                             ql_phone := From req |};
               PFindCitation (text req)] /\
   sent w = [confirmation; confirmation ++ [msg_queued env];
             confirmation ++ [msg_queued env] ++ found]%list) /\
  (truthy (askedQueued (req_session req)) = true ->
   is_negative (text req) = true ->
   issued w = [] /\
   sent w = [confirmation; confirmation ++ [msg_optout env]]%list).
Proof.
  intros Hr Hm Hrec confirmation found w. subst confirmation found w.
  run_sync. rewrite Hr, Hm.
  destruct (text_cases (text req)) as [[Ha Hn] | [[Ha Hn] | [Ha Hn]]];
    [| |destruct Hrec; congruence]; rewrite Ha.
  - rewrite handleReminderResponse_affirmative by assumption. sends.
    destruct (truthy (askedQueued (req_session req))) eqn:Hq.
    + rewrite answer_queued_affirmative by (cbn; assumption).
      run_loop. repeat split; intros; first [reflexivity | congruence | cbn; lia].
    + rewrite answer_queued_not_asked by (cbn; assumption).
      run_loop. repeat split; intros; first [reflexivity | congruence | cbn; lia].
  - rewrite handleReminderResponse_negative by assumption. sends.
    destruct (truthy (askedQueued (req_session req))) eqn:Hq.
    + rewrite answer_queued_negative by (cbn; assumption).
      run_loop. repeat split; intros; first [reflexivity | congruence | cbn; lia].
    + rewrite answer_queued_not_asked by (cbn; assumption).
      run_loop. repeat split; intros; first [reflexivity | congruence | cbn; lia].
Qed.

(** C9, an instance: "no" while only the reminder question is pending. *)
Lemma confirmation_is_also_looked_up_witness :
  let w := snd (handler quiet_db example_env (request "no" awaiting_reminder)) in
  issued w = [PFindCitation "NO"] /\
  sent w = [[msg_optout example_env]; [msg_optout example_env; msg_format]].
Proof.
  apply (confirmation_is_also_looked_up quiet_db example_env
           (request "no" awaiting_reminder) (CaseMatch example_case));
    first [reflexivity | right; reflexivity].
Defined.

(** C9 as stated fails: when the queue question is pending too, a negative
    reply is answered twice and the handler returns without looking the
    text up. *)
Lemma negative_answer_skips_lookup :
  let w := snd (handler quiet_db example_env (request "no" awaiting_both)) in
  ~ In (PFindCitation "NO") (issued w) /\
  sent w = [[msg_optout example_env];
            [msg_optout example_env; msg_optout example_env]].
Proof. split; [vm_compute; intros [] | reflexivity]. Qed.

(** ** The middleware *)

(** Whatever the database passes to its callback, the middleware changes
    nothing and never calls [next]: it either returns or throws. *)
Lemma questionAskedMiddleware_inert (data : JsValue) (w : World) :
  snd (questionAskedMiddleware data w) = w.
Proof.
  destruct data as [| e | rows]; try reflexivity.
  unfold questionAskedMiddleware.
  now destruct (List.length rows =? 1)%nat.
Qed.

Lemma questionAskedMiddleware_inert_issued (data : JsValue) (w : World) :
  issued (snd (questionAskedMiddleware data w)) = issued w.
Proof. now rewrite questionAskedMiddleware_inert. Qed.

(** ** Answers that find no flag in the session *)

(** C4, as the code has it.  When [askedReminder] is not set the first
    call the handler issues is [findAskedQueued] for the sender, and when
    it yields exactly one row its callback handles the message as the
    answer to a reminder question with that row as the match, not as the
    answer to the queue question.  With an affirmative text it stores a
    reminder for the row, adds the reminder confirmation to the reply and
    passes it to [res.send]; with a negative text it adds the opt-out
    message and stores nothing; with any other text it leaves the row
    alone.  The row causes no queued lookup: without the queue flag in the
    session [db.addQueued] is not called; and [questionAskedMiddleware]
    requests none either. *)
Theorem asked_row_is_a_reminder_question
        (db : Db) (env : Config) (req : Request) (row : QueuedRow) :
  truthy (askedReminder (req_session req)) = false ->
  findAskedQueued db (From req) = inr [row] ->
  let w := snd (handler db env req) in
  let answer := handleReminderResponse env req (Some (QueuedMatch row)) in
  hd_error (issued w) = Some (PFindAskedQueued (From req)) /\
  (forall w0, run_callback db env req (PFindAskedQueued (From req)) w0
              = answer w0) /\
  (is_affirmative (text req) = true ->
   (forall w0, snd (answer w0)
               = reply_with [msg_reminder_1; msg_reminder_2 env]
                   (with_askedReminder false)
                   (log_reminder (reminder_for req (QueuedMatch row)) w0)) /\
   reminders w = [reminder_for req (QueuedMatch row)] /\
   exists before,
     In (before ++ [msg_reminder_1; msg_reminder_2 env])%list (sent w)) /\
  (is_negative (text req) = true ->
   (forall w0, snd (answer w0)
               = reply_with [msg_optout env] (with_askedReminder false) w0) /\
   reminders w = [] /\
   exists before, In (before ++ [msg_optout env])%list (sent w)) /\
  (is_affirmative (text req) = false ->
   is_negative (text req) = false ->
   (forall w0, snd (answer w0) = w0) /\
   reminders w = []) /\
  (truthy (askedQueued (req_session req)) = false ->
   filter is_addQueued (issued w) = []) /\
  (forall data w0, issued (snd (questionAskedMiddleware data w0)) = issued w0).
Proof.
  intros Hr Hrow w answer. subst w answer.
  split; [|split].
  { destruct (text_cases (text req)) as [[Ha Hn] | [[Ha Hn] | [Ha Hn]]];
      destruct (truthy (askedQueued (req_session req))) eqn:Hq;
      run_sync; rewrite Hr; unfold issue; cbv beta; fields;
      first [ rewrite answer_queued_affirmative by (cbn; assumption)
            | rewrite answer_queued_negative by (cbn; assumption)
            | rewrite answer_queued_not_asked by (cbn; assumption)
            | rewrite answer_queued_unrecognised by assumption ];
      unfold issue, ret; sends; rewrite event_loop_issued; reflexivity. }
  { intros w0. cbn [run_callback]. now rewrite Hrow. }
  destruct (text_cases (text req)) as [[Ha Hn] | [[Ha Hn] | [Ha Hn]]].
  3:{ rewrite (handler_unrecognised db env req Ha Hn).
      cbn [snd issued reminders sent]. rewrite Hr.
      repeat split; intros; try congruence.
      - now rewrite handleReminderResponse_unrecognised.
      - apply questionAskedMiddleware_inert_issued. }
  all: run_sync; rewrite Hr; unfold issue; cbv beta; fields;
    destruct (truthy (askedQueued (req_session req))) eqn:Hq.
  - rewrite answer_queued_affirmative by (cbn; assumption).
    run_loop. rewrite Hrow, on_findAskedQueued_single.
    rewrite handleReminderResponse_affirmative by assumption. run_loop.
    repeat split; intros; try congruence.
    + now rewrite handleReminderResponse_affirmative.
    + exists []. now left.
    + apply questionAskedMiddleware_inert_issued.
  - rewrite answer_queued_not_asked by (cbn; assumption).
    run_loop. rewrite Hrow, on_findAskedQueued_single.
    rewrite handleReminderResponse_affirmative by assumption. run_loop.
    repeat split; intros; try congruence.
    + now rewrite handleReminderResponse_affirmative.
    + exists []. now left.
    + apply questionAskedMiddleware_inert_issued.
  - rewrite answer_queued_negative by (cbn; assumption).
    run_loop. rewrite Hrow, on_findAskedQueued_single.
    rewrite handleReminderResponse_negative by assumption. run_loop.
    repeat split; intros; try congruence.
    + now rewrite handleReminderResponse_negative.
    + exists []. now left.
    + apply questionAskedMiddleware_inert_issued.
  - rewrite answer_queued_not_asked by (cbn; assumption).
    run_loop. rewrite Hrow, on_findAskedQueued_single.
    rewrite handleReminderResponse_negative by assumption. run_loop.
    repeat split; intros; try congruence.
    + now rewrite handleReminderResponse_negative.
    + exists []. now left.
    + apply questionAskedMiddleware_inert_issued.
Qed.

(** C4, an instance: "yes" from a sender with an empty session and one
    asked row in the store. *)
Lemma asked_row_is_a_reminder_question_witness :
  hd_error (issued (snd (handler one_row_db example_env
                                 (request "yes" empty_session))))
  = Some (PFindAskedQueued "+15550100").
Proof.
  apply (asked_row_is_a_reminder_question one_row_db example_env
           (request "yes" empty_session) example_row); reflexivity.
Defined.

(** C4 as stated fails: the "yes" of a sender with an empty session and
    one asked row is not answered as a confirmation of the queue question;
    it stores a reminder and requests no queued lookup. *)
Lemma asked_row_is_not_a_queue_question :
  let w := snd (handler one_row_db example_env (request "yes" empty_session)) in
  ~ answered_as_queue_confirm w /\
  reminders w = [reminder_for (request "yes" empty_session)
                              (QueuedMatch example_row)] /\
  filter is_addQueued (issued w) = [].
Proof.
  split; [|split; reflexivity].
  intros [H _]. vm_compute in H. discriminate.
Qed.

(** ** Two affirmative answers in a row *)

Lemma handler_reminder_affirmative
      (db : Db) (env : Config) (req : Request) (m : Match) :
  truthy (askedReminder (req_session req)) = true ->
  session_match (req_session req) = Some m ->
  is_affirmative (text req) = true ->
  let w := snd (handler db env req) in
  reminders w = [reminder_for req m] /\
  carried w = with_askedReminder false (req_session req).
Proof.
  intros Hr Hm Ha w. subst w. run_sync. rewrite Hr, Hm.
  rewrite handleReminderResponse_affirmative by assumption. sends.
  destruct (truthy (askedQueued (req_session req))) eqn:Hq.
  - rewrite answer_queued_affirmative by (cbn; assumption).
    run_loop. split; reflexivity.
  - rewrite answer_queued_not_asked by (cbn; assumption).
    run_loop. split; reflexivity.
Qed.

Lemma handler_reminder_no_match
      (db : Db) (env : Config) (req : Request) :
  truthy (askedReminder (req_session req)) = true ->
  session_match (req_session req) = None ->
  is_affirmative (text req) = true ->
  handler db env req = (Throw "TypeError", init_world (req_session req)).
Proof.
  intros Hr Hm Ha. run_sync. rewrite Hr, Hm.
  rewrite handleReminderResponse_no_match by assumption. reflexivity.
Qed.

(** Without the reminder flag and without a single asked row no reminder
    is stored. *)
Lemma no_question_no_reminder (db : Db) (env : Config) (req : Request) :
  truthy (askedReminder (req_session req)) = false ->
  (forall row, findAskedQueued db (From req) <> inr [row]) ->
  reminders (snd (handler db env req)) = [].
Proof.
  intros Hr Hrow.
  destruct (text_cases (text req)) as [[Ha Hn] | [[Ha Hn] | [Ha Hn]]];
    destruct (truthy (askedQueued (req_session req))) eqn:Hq;
    run_sync; rewrite Hr; unfold issue; cbv beta; fields;
    first [ rewrite answer_queued_affirmative by (cbn; assumption)
          | rewrite answer_queued_negative by (cbn; assumption)
          | rewrite answer_queued_not_asked by (cbn; assumption)
          | rewrite answer_queued_unrecognised by assumption ];
    run_loop;
    rewrite on_findAskedQueued_not_single by exact Hrow;
    run_loop; reflexivity.
Qed.

(** C3, as the code has it.  A sender whose reminder question is pending
    answers "YES" twice, the second time with the session the cookie of
    the first reply carries.  If the subscription store holds no single
    asked row for the sender when the second message is handled, the two
    messages store at most one reminder, and the second stores none. *)
Theorem second_yes_stores_no_reminder
        (db1 db2 : Db) (env : Config) (from : string) (s : Session) :
  truthy (askedReminder s) = true ->
  (forall row, findAskedQueued db2 from <> inr [row]) ->
  let req1 := {| From := from; Body := "YES"; req_session := s |} in
  let req2 := {| From := from; Body := "YES";
                 req_session := session_after db1 env req1 |} in
  List.length (reminders_of_two db1 db2 env from "YES" "YES" s) <= 1 /\
  reminders (snd (handler db2 env req2)) = [].
Proof.
  intros Hr Hrow req1 req2.
  assert (Ha1 : is_affirmative (text req1) = true) by reflexivity.
  assert (second : reminders (snd (handler db2 env req2)) = []).
  { destruct (session_match s) as [m|] eqn:Hm.
    - destruct (handler_reminder_affirmative db1 env req1 m Hr Hm Ha1)
        as [_ Hs].
      apply no_question_no_reminder; [|exact Hrow].
      unfold req2, session_after. cbn [req_session]. now rewrite Hs.
    - assert (Hs : session_after db1 env req1 = s).
      { unfold session_after.
        now rewrite (handler_reminder_no_match db1 env req1 Hr Hm Ha1). }
      unfold req2. rewrite Hs.
      now rewrite (handler_reminder_no_match db2 env
                     {| From := from; Body := "YES"; req_session := s |}
                     Hr Hm eq_refl). }
  split; [|exact second].
  unfold reminders_of_two. fold req1. fold req2. rewrite second, app_nil_r.
  destruct (session_match s) as [m|] eqn:Hm.
  - destruct (handler_reminder_affirmative db1 env req1 m Hr Hm Ha1)
      as [Hrem _].
    rewrite Hrem. cbn. lia.
  - rewrite (handler_reminder_no_match db1 env req1 Hr Hm Ha1). cbn. lia.
Qed.

(** C3, an instance: nothing in the store. *)
Lemma second_yes_stores_no_reminder_witness :
  List.length (reminders_of_two quiet_db quiet_db example_env "+15550100"
                                "YES" "YES" awaiting_reminder) <= 1.
Proof.
  apply (second_yes_stores_no_reminder quiet_db quiet_db example_env
           "+15550100" awaiting_reminder).
  - reflexivity.
  - intros row. discriminate.
Defined.

(** C3 as stated fails: with one asked row in the subscription store the
    second "YES" answers that row and stores a second reminder. *)
Lemma second_yes_answers_asked_row :
  ~ List.length (reminders_of_two one_row_db one_row_db example_env
                                  "+15550100" "YES" "YES" awaiting_reminder)
    <= 1.
Proof. vm_compute. lia. Qed.

(* ================================================================= *)
(** * Further properties of the handler *)

Ltac loop_step :=
  unfold issue, ret, next, event_loop, init_world; sends;
  rewrite ?on_addQueued_eq, ?on_findCitation_eq;
  sends.

Ltac reminder_step :=
  first [ rewrite handleReminderResponse_affirmative by assumption
        | rewrite handleReminderResponse_no_match by assumption
        | rewrite handleReminderResponse_negative by assumption
        | rewrite handleReminderResponse_unrecognised by assumption ].

Ltac queued_step :=
  first [ rewrite answer_queued_not_asked by (cbn; assumption)
        | rewrite answer_queued_affirmative by (cbn; assumption)
        | rewrite answer_queued_negative by (cbn; assumption)
        | rewrite answer_queued_unrecognised by assumption ].

(** All the paths of one request: the kind of text, the two flags, the
    stored match when the reminder flag is set, the answer of
    [findAskedQueued] when it is not.  Each goal is left with the world
    written out. *)
Ltac handler_cases db env req :=
  let Ha := fresh "Ha" in
  let Hn := fresh "Hn" in
  let Hr := fresh "Hr" in
  let Hq := fresh "Hq" in
  let Hm := fresh "Hm" in
  let Hf := fresh "Hf" in
  destruct (text_cases (text req)) as [[Ha Hn] | [[Ha Hn] | [Ha Hn]]];
  destruct (truthy (askedReminder (req_session req))) eqn:Hr;
  destruct (truthy (askedQueued (req_session req))) eqn:Hq;
  unfold handler, handler_sync, bind, get_session, init_world;
  cbn [session]; rewrite ?Hr;
  lazymatch type of Hr with
  | _ = true =>
      destruct (session_match (req_session req)) as [?m|] eqn:Hm;
      reminder_step; sends; try queued_step; loop_step
  | _ =>
      unfold issue; cbv beta; fields; queued_step; loop_step;
      destruct (findAskedQueued db (From req)) as [?e | [|?row [|?row' ?rows]]]
        eqn:Hf;
      unfold on_findAskedQueued; cbn [List.length Nat.eqb];
      try reminder_step; loop_step
  end.

Lemma confirmation_word_wrong_length (req : Request) :
  is_affirmative (text req) = true \/ is_negative (text req) = true ->
  correctLengthCitation req = false.
Proof.
  unfold correctLengthCitation.
  intros [H | H]; [apply affirmative_short in H | apply negative_short in H];
    apply andb_false_intro1, Nat.leb_gt; lia.
Qed.

(** ** Replies *)


(** X2.  Every reply carries at least one message, and every reply after
    the first repeats all the messages of the one before it and adds
    some: the handler keeps writing to the one [twiml] it has sent. *)
Theorem replies_are_cumulative (db : Db) (env : Config) (req : Request) :
  cumulative (replies db env req) /\
  Forall (fun r => r <> []) (replies db env req).
Proof.
  unfold replies. handler_cases db env req.
  all: cbn [snd sent cumulative]; split;
    [ repeat split; unfold extends;
      try (eexists; split; cycle 1;
           [ reflexivity
           | first [ discriminate | apply lookup_messages_nonempty ] ])
    | repeat constructor;
      first [ discriminate | apply lookup_messages_nonempty ] ].
Qed.

(** ** Reminders and queued lookups *)

(** X3.  One message stores at most one reminder, and only when its text
    is affirmative.  The reminder is for the sender's number and for the
    match that was asked about: the match of the session when the reminder
    flag is set, otherwise the single asked row of the subscription
    store. *)
Theorem reminder_only_on_affirmative
        (db : Db) (env : Config) (req : Request) :
  let w := snd (handler db env req) in
  List.length (reminders w) <= 1 /\
  forall r, In r (reminders w) ->
    is_affirmative (text req) = true /\
    r = reminder_for req (originalCase r) /\
    if truthy (askedReminder (req_session req))
    then session_match (req_session req) = Some (originalCase r)
    else exists row, findAskedQueued db (From req) = inr [row] /\
                     originalCase r = QueuedMatch row.
Proof.
  cbv zeta. handler_cases db env req.
  all: cbn [snd reminders List.length app]; split; [lia|];
    intros r Hin; cbn in Hin;
    first [ contradiction
          | destruct Hin as [<- | []]; cbn; repeat split; eauto ].
Qed.

(** X4.  A queued lookup is requested only by an affirmative text while
    the queue flag is set; it is requested at most once, for the sender's
    number and the citation text the session holds. *)
Theorem queued_lookup_only_on_affirmative
        (db : Db) (env : Config) (req : Request) :
  let w := snd (handler db env req) in
  List.length (filter is_addQueued (issued w)) <= 1 /\
  forall q, In (PAddQueued q) (issued w) ->
    truthy (askedQueued (req_session req)) = true /\
    is_affirmative (text req) = true /\
    q = {| ql_citationId := citationId (req_session req);
           ql_phone := From req |}.
Proof.
  cbv zeta. handler_cases db env req.
  all: cbn [snd issued filter is_addQueued List.length]; split; [lia|];
    intros q Hin; cbn in Hin;
    repeat match goal with
           | H : _ \/ _ |- _ => destruct H
           | H : False |- _ => destruct H
           | H : PAddQueued _ = PAddQueued _ |- _ => injection H as <-
           | H : _ = PAddQueued _ |- _ => discriminate H
           end; repeat split; first [assumption | reflexivity].
Qed.

(** X5.  The handler passes an error to [next] only when the subscription
    store reported it: the error of [findAskedQueued] for the sender or
    the error of the [addQueued] call it made. *)
Theorem next_only_on_store_errors
        (db : Db) (env : Config) (req : Request) (e : string) :
  In e (nexts (snd (handler db env req))) ->
  findAskedQueued db (From req) = inl e \/
  addQueued db {| ql_citationId := citationId (req_session req);
                  ql_phone := From req |} = Some e.
Proof.
  handler_cases db env req.
  all: cbn [snd nexts app]; intros Hin;
    repeat match goal with
           | H : In _ (match ?x with _ => _ end) |- _ => destruct x eqn:?
           | H : In _ (_ ++ _) |- _ => apply in_app_or in H
           | H : In _ (_ :: _) |- _ => cbn in H
           | H : In _ [] |- _ => destruct H
           | H : _ \/ _ |- _ => destruct H
           | H : False |- _ => destruct H
           end; subst; auto.
Qed.

(** ** What a confirmation word leaves in the session *)

(** X6.  After a message whose text is a confirmation word the session
    carried to the next message has the reminder flag not set, unless the
    citation store has exactly one case under that very word.  When the
    reminder flag was set and the answer was handled, the carried session
    is the session of the request with that flag cleared and nothing else
    changed: a queue question that was pending as well stays pending for
    the next message, although the handler answers it in the same
    request, because the cookie is written at the first [res.send]. *)
Theorem confirmation_answers_one_question
        (db : Db) (env : Config) (req : Request) :
  is_affirmative (text req) = true \/ is_negative (text req) = true ->
  fst (handler db env req) <> Throw "TypeError" ->
  let s' := session_after db env req in
  (no_unique_case (findCitation db (text req)) = true ->
   truthy (askedReminder s') = false) /\
  (truthy (askedReminder (req_session req)) = true ->
   s' = with_askedReminder false (req_session req) /\
   askedQueued s' = askedQueued (req_session req)).
Proof.
  intros Hrec. pose proof (confirmation_word_wrong_length req Hrec) as Hlen.
  cbv zeta. unfold session_after. handler_cases db env req.
  all: try (destruct Hrec; congruence).
  all: cbn [fst snd session carried cookie]; intros Hnorm;
    try (now destruct Hnorm).
  all: unfold lookup_session; rewrite ?Hlen;
    destruct (findCitation db (text req)) as [[|? [|? ?]]|];
    cbn; repeat split; intros;
    first [assumption | reflexivity | discriminate].
Qed.

(** ** Sessions the handler writes *)

Lemma lookup_session_ok (req : Request) (results : option (list CaseRecord))
      (s : Session) :
  session_ok s -> session_ok (lookup_session req results s).
Proof.
  intros [H1 H2]. unfold lookup_session.
  destruct results as [[|m [|m' l]]|];
    cbn [no_unique_case List.length Nat.eqb Nat.ltb Nat.leb orb];
    try (destruct (correctLengthCitation req) eqn:Hlen);
    try (split; assumption).
  all: split; cbn; intros; try discriminate; auto.
  all: try (exists (text req); split; [reflexivity|];
            unfold correctLengthCitation in Hlen;
            apply andb_prop in Hlen as [Ha Hb];
            apply Nat.leb_le in Ha, Hb; lia).
Qed.

Lemma handler_session_ok (db : Db) (env : Config) (req : Request) :
  session_ok (req_session req) ->
  fst (handler db env req) <> Throw "TypeError" /\
  session_ok (carried (snd (handler db env req))).
Proof.
  intros Hok.
  handler_cases db env req.
  all: cbn [fst snd session carried cookie];
    try (exfalso; destruct Hok as [H1 _]; now apply H1).
  all: split; [discriminate|].
  all: repeat apply lookup_session_ok.
  all: destruct Hok as [H1 H2]; split; cbn; intros;
    first [discriminate | congruence | auto].
Qed.

(** X7.  The handler keeps sessions in order.  If the session of a request
    has a match whenever its reminder flag is set, and a citation text of
    6 to 25 characters whenever its queue flag is set, then the handler
    does not throw the [TypeError] of a missing match and the session
    carried to the next message is of the same kind. *)
Theorem handler_keeps_sessions_in_order
        (db : Db) (env : Config) (req : Request) :
  session_ok (req_session req) ->
  fst (handler db env req) <> Throw "TypeError" /\
  session_ok (session_after db env req).
Proof. apply handler_session_ok. Qed.

Lemma empty_session_ok : session_ok empty_session.
Proof. split; cbn; intros; discriminate. Qed.

Lemma queued_lookup_of_session
      (db : Db) (env : Config) (req : Request) (q : QueuedLookup) :
  In (PAddQueued q) (issued (snd (handler db env req))) ->
  truthy (askedQueued (req_session req)) = true /\
  q = {| ql_citationId := citationId (req_session req);
         ql_phone := From req |}.
Proof.
  handler_cases db env req.
  all: cbn [snd issued]; intros Hin; cbn in Hin;
    repeat match goal with
           | H : _ \/ _ |- _ => destruct H
           | H : False |- _ => destruct H
           | H : PAddQueued _ = PAddQueued _ |- _ => injection H as <-
           | H : _ = PAddQueued _ |- _ => discriminate H
           end; split; reflexivity.
Qed.

Lemma conversation_ok (env : Config) (from : string)
      (turns : list (Db * string)) (s : Session) :
  session_ok s ->
  Forall (fun r =>
            fst r <> Throw "TypeError" /\
            forall q, In (PAddQueued q) (issued (snd r)) ->
                      ql_phone q = from /\
                      exists t, ql_citationId q = Some t /\
                                6 <= String.length t <= 25)
         (conversation env from s turns).
Proof.
  revert s. induction turns as [|[db body] turns IH]; intros s Hok;
    cbn [conversation]; constructor.
  - set (req := {| From := from; Body := body; req_session := s |}).
    destruct (handler_session_ok db env req Hok) as [Hn _].
    split; [exact Hn|]. intros q Hin.
    apply queued_lookup_of_session in Hin as [Hq ->]. cbn.
    split; [reflexivity|].
    destruct Hok as [_ H2]. exact (H2 Hq).
  - apply IH. apply handler_session_ok. exact Hok.
Qed.

(** X8.  In a conversation that starts with an empty session, each
    message being handled with the session the cookie of the reply before
    it carries, the [TypeError] of a reminder question without a match
    cannot happen, whatever the sender writes and whatever the stores
    answer. *)
Theorem conversation_has_no_type_error
        (env : Config) (from : string) (turns : list (Db * string)) :
  Forall (fun r => fst r <> Throw "TypeError")
         (conversation env from empty_session turns).
Proof.
  eapply Forall_impl; [|apply conversation_ok, empty_session_ok].
  now intros r [H _].
Qed.

(** X9.  In a conversation that starts with an empty session, each
    message being handled with the session the cookie of the reply before
    it carries, every queued lookup the handler requests is for the
    sender's number and for a citation text of 6 to 25 characters. *)
Theorem conversation_queues_checked_citations
        (env : Config) (from : string) (turns : list (Db * string)) :
  Forall (fun r =>
            forall q, In (PAddQueued q) (issued (snd r)) ->
                      ql_phone q = from /\
                      exists t, ql_citationId q = Some t /\
                                6 <= String.length t <= 25)
         (conversation env from empty_session turns).
Proof.
  eapply Forall_impl; [|apply conversation_ok, empty_session_ok].
  now intros r [_ H].
Qed.

(** X5, an instance: the subscription store is down. *)
Lemma next_only_on_store_errors_witness :
  findAskedQueued failing_db "+15550100" = inl "ECONNREFUSED" \/
  addQueued failing_db {| ql_citationId := None; ql_phone := "+15550100" |}
  = Some "ECONNREFUSED".
Proof.
  apply (next_only_on_store_errors failing_db example_env
           (request "abc123" empty_session) "ECONNREFUSED").
  vm_compute. left. reflexivity.
Defined.

(** X6, an instance: "no" while both questions are pending; the queue
    question is still pending in the carried session. *)
Lemma confirmation_answers_one_question_witness :
  session_after quiet_db example_env (request "no" awaiting_both)
  = with_askedReminder false awaiting_both /\
  askedQueued (session_after quiet_db example_env (request "no" awaiting_both))
  = askedQueued awaiting_both.
Proof.
  refine (proj2 (confirmation_answers_one_question quiet_db example_env
                   (request "no" awaiting_both) _ _) _).
  - right. reflexivity.
  - vm_compute. discriminate.
  - reflexivity.
Defined.

(** X7, an instance: both questions pending, "yes". *)
Lemma handler_keeps_sessions_in_order_witness :
  fst (handler quiet_db example_env (request "yes" awaiting_both))
  <> Throw "TypeError" /\
  session_ok (session_after quiet_db example_env (request "yes" awaiting_both)).
Proof.
  apply (handler_keeps_sessions_in_order quiet_db example_env
           (request "yes" awaiting_both)).
  split; cbn; intros _.
  - discriminate.
  - exists "ABC123". split; [reflexivity | cbn; lia].
Defined.

(* ================================================================= *)
(** * Further properties of [cleanupName] *)

Lemma is_lower_upper_char (c : ascii) : is_lower (upper_char c) = false.
Proof. by_cases_on_char c. Qed.

Lemma is_upper_lower_char (c : ascii) : is_upper (lower_char c) = false.
Proof. by_cases_on_char c. Qed.

Lemma is_word_lower (c : ascii) : is_word (lower_char c) = is_word c.
Proof. by_cases_on_char c. Qed.

Lemma upper_lower_char (c : ascii) : upper_char (lower_char c) = upper_char c.
Proof. by_cases_on_char c. Qed.

Lemma lower_upper_char (c : ascii) : lower_char (upper_char c) = lower_char c.
Proof. by_cases_on_char c. Qed.

Lemma upper_char_other (c : ascii) : is_word c = false -> upper_char c = c.
Proof. by_cases_on_char c. Qed.

Lemma lower_char_other (c : ascii) : is_word c = false -> lower_char c = c.
Proof. by_cases_on_char c. Qed.

Lemma title_run_well_cased (b : bool) (s : string) :
  well_cased b (title_run b s) = true.
Proof.
  revert b. induction s as [|c s IH]; intros b; [reflexivity|].
  cbn [title_run]. destruct b.
  - destruct (is_space c) eqn:E; cbn [well_cased].
    + now rewrite E.
    + now rewrite is_space_lower, E, is_upper_lower_char, IH.
  - destruct (is_word c) eqn:E; cbn [well_cased].
    + rewrite is_space_upper, (word_not_space c E), is_word_upper, E.
      now rewrite is_lower_upper_char, IH.
    + destruct (is_space c); now rewrite ?E, IH.
Qed.

(** X10.  A cleaned-up name has no blank at either end, and in each of its
    blank-delimited tokens the first word character is no lower-case
    letter and nothing after it is an upper-case letter. *)
Theorem cleanupName_shape (name : string) :
  trim (cleanupName name) = cleanupName name /\
  well_cased false (cleanupName name) = true.
Proof.
  rewrite cleanupName_title_run. split.
  - now rewrite title_run_trim, trim_idem.
  - apply title_run_well_cased.
Qed.

Section CaseMaps.

(** A character map that keeps the blanks and the word characters, moves
    no character outside the word characters and is absorbed by both case
    maps: [upper_char] and [lower_char] are two. *)
Variable f : ascii -> ascii.
Hypothesis f_space : forall c, is_space (f c) = is_space c.
Hypothesis f_word : forall c, is_word (f c) = is_word c.
Hypothesis f_upper : forall c, upper_char (f c) = upper_char c.
Hypothesis f_lower : forall c, lower_char (f c) = lower_char c.
Hypothesis f_other : forall c, is_word c = false -> f c = c.

Lemma ltrim_map_chars (s : string) :
  ltrim (map_chars f s) = map_chars f (ltrim s).
Proof.
  induction s as [|c s IH]; [reflexivity|].
  cbn [map_chars ltrim]. rewrite f_space.
  now destruct (is_space c).
Qed.

Lemma rtrim_map_chars (s : string) :
  rtrim (map_chars f s) = map_chars f (rtrim s).
Proof.
  induction s as [|c s IH]; [reflexivity|].
  cbn [map_chars rtrim]. rewrite IH, f_space.
  destruct (rtrim s); cbn [map_chars]; [|reflexivity].
  now destruct (is_space c).
Qed.

Lemma trim_map_chars (s : string) :
  trim (map_chars f s) = map_chars f (trim s).
Proof. unfold trim. now rewrite ltrim_map_chars, rtrim_map_chars. Qed.

Lemma title_run_map_chars (b : bool) (s : string) :
  title_run b (map_chars f s) = title_run b s.
Proof.
  revert b. induction s as [|c s IH]; intros b; [reflexivity|].
  cbn [map_chars title_run]. rewrite f_space, f_word, f_upper, f_lower.
  rewrite !IH. destruct b.
  - destruct (is_space c) eqn:E; [|reflexivity].
    now rewrite (f_other c (space_not_word c E)).
  - destruct (is_word c) eqn:E; [reflexivity|].
    now rewrite (f_other c E).
Qed.

Lemma cleanupName_map_chars (s : string) :
  cleanupName (map_chars f s) = cleanupName s.
Proof.
  rewrite !cleanupName_title_run, trim_map_chars.
  apply title_run_map_chars.
Qed.

End CaseMaps.

(** X11.  The case of the letters of a name does not matter to its
    clean-up: a name, the name in upper case and the name in lower case
    are cleaned up to the same text. *)
Theorem cleanupName_ignores_case (name : string) :
  cleanupName (toUpperCase name) = cleanupName name /\
  cleanupName (toLowerCase name) = cleanupName name.
Proof.
  split.
  - apply cleanupName_map_chars.
    + apply is_space_upper.
    + apply is_word_upper.
    + apply upper_char_idem.
    + apply lower_upper_char.
    + apply upper_char_other.
  - apply cleanupName_map_chars.
    + apply is_space_lower.
    + apply is_word_lower.
    + apply upper_lower_char.
    + apply lower_char_idem.
    + apply lower_char_other.
Qed.

Lemma toLowerCase_title_run (b : bool) (s : string) :
  toLowerCase (title_run b s) = toLowerCase s.
Proof.
  unfold toLowerCase. revert b.
  induction s as [|c s IH]; intros b; [reflexivity|].
  cbn [title_run].
  destruct b; [destruct (is_space c) | destruct (is_word c)];
    cbn [map_chars]; now rewrite ?lower_char_idem, ?lower_upper_char, IH.
Qed.

Lemma ltrim_all_blank (s : string) : all_blank s = true -> ltrim s = "".
Proof.
  induction s as [|c s IH]; [reflexivity|]. cbn.
  destruct (is_space c); [exact IH | discriminate].
Qed.

(** X12.  Cleaning up a name changes nothing but the blanks at its ends
    and the case of its letters: in lower case, the clean name is the
    trimmed name in lower case.  A name made of blanks only is cleaned up
    to the empty name. *)
Theorem cleanupName_changes_case_only (name : string) :
  toLowerCase (cleanupName name) = toLowerCase (trim name) /\
  (all_blank name = true -> cleanupName name = "").
Proof.
  rewrite cleanupName_title_run. split.
  - apply toLowerCase_title_run.
  - intros H. unfold trim. now rewrite (ltrim_all_blank name H).
Qed.


(* ================================================================= *)
(** * The database manager *)

Module ManagerFacts.
Import Manager.
Local Open Scope list_scope.

Lemma hasTable_In (t : string) (st : State) :
  hasTable t st = true <-> In t (tables st).
Proof.
  unfold hasTable. rewrite existsb_exists. split.
  - intros (x & Hin & Heq). apply String.eqb_eq in Heq. now subst.
  - intros Hin. exists t. split; [exact Hin | apply String.eqb_refl].
Qed.

Lemma hasTable_not_In (t : string) (st : State) :
  hasTable t st = false <-> ~ In t (tables st).
Proof.
  rewrite <- hasTable_In. destruct (hasTable t st); split; intros H;
    try reflexivity; try discriminate; try (intros H'; discriminate).
  now destruct H.
Qed.

Lemma known_table (v : string) :
  In v all_tables -> exists refs, foreign_tables v = Some refs.
Proof.
  intros [<- | [<- | [<- | [<- | []]]]]; eexists; reflexivity.
Qed.

(** One link of the chain, for a table that has instructions: the chain
    stays resolved, at most the table itself is added, at the end, and
    only if it was not there. *)
Lemma ensure_link_known (broken : string -> option string)
      (v : string) (st : State) :
  In v all_tables ->
  exists added said,
    ensure_link broken (Resolved, st) v
    = (Resolved, {| tables := tables st ++ added; log := log st ++ [said] |})
    /\ (added = [] \/ added = [v] /\ hasTable v st = false)
    /\ (hasTable v st = true -> added = [] /\ said = AlreadyExists v).
Proof.
  intros Hv. destruct (known_table v Hv) as [refs Hrefs].
  unfold ensure_link, createTable, createTableInstructions, knex_createTable.
  rewrite Hrefs. destruct (hasTable v st) eqn:E.
  - exists [], (AlreadyExists v). rewrite app_nil_r. repeat split; auto.
  - cbn [negb]. destruct (broken v) as [err|].
    + exists [], (LoggedError err). rewrite app_nil_r.
      repeat split; auto; discriminate.
    + destruct (forallb (fun r => hasTable r st) refs).
      * exists [v], (TableCreated v). repeat split; auto; discriminate.
      * exists [], (LoggedError "relation does not exist").
        rewrite app_nil_r. repeat split; auto; discriminate.
Qed.

Lemma ensure_chain (broken : string -> option string)
      (vs : list string) (st : State) :
  (forall v, In v vs -> In v all_tables) ->
  exists added said,
    fold_left (ensure_link broken) vs (Resolved, st)
    = (Resolved, {| tables := tables st ++ added; log := log st ++ said |})
    /\ (forall t, In t added -> In t vs /\ ~ In t (tables st))
    /\ NoDup added
    /\ List.length said = List.length vs
    /\ ((forall v, In v vs -> hasTable v st = true) ->
        added = [] /\ said = map AlreadyExists vs).
Proof.
  revert st. induction vs as [|v vs IH]; intros st Hvs.
  - exists [], []. rewrite !app_nil_r. destruct st.
    repeat split; auto; try constructor; try (intros t []).
  - destruct (ensure_link_known broken v st (Hvs v (or_introl eq_refl)))
      as (a1 & s1 & E1 & Ha1 & Hex1).
    cbn [fold_left]. rewrite E1.
    destruct (IH {| tables := tables st ++ a1; log := log st ++ [s1] |}
                 (fun u Hu => Hvs u (or_intror Hu)))
      as (a2 & s2 & E2 & Ha2 & Hnd & Hlen & Hex2).
    cbn [tables log] in *. rewrite E2.
    exists (a1 ++ a2)%list, (s1 :: s2). rewrite <- !app_assoc. cbn [app].
    split; [reflexivity|]. split; [|split; [|split]].
    + intros t Hin. apply in_app_or in Hin as [Hin | Hin].
      * destruct Ha1 as [-> | [-> Hv]]; [destruct Hin|].
        destruct Hin as [<- | []]. split; [now left|].
        now apply hasTable_not_In.
      * destruct (Ha2 t Hin) as [Hvs' Hnot]. split; [now right|].
        intros H. apply Hnot. apply in_or_app. now left.
    + destruct Ha1 as [-> | [-> Hv]]; [exact Hnd|].
      cbn. constructor; [|exact Hnd].
      intros Hin. destruct (Ha2 v Hin) as [_ Hnot].
      apply Hnot. apply in_or_app. right. now left.
    + cbn. now rewrite Hlen.
    + intros Hall.
      destruct (Hex1 (Hall v (or_introl eq_refl))) as [-> ->].
      rewrite app_nil_r in Hex2.
      destruct Hex2 as [-> ->]; [|now split].
      intros u Hu. unfold hasTable. cbn [tables].
      apply (Hall u). now right.
Qed.

(** X13.  [ensureTablesExist] always resolves, whatever the database holds
    and whatever it refuses: a failure to create one table is logged and
    the chain goes on.  It makes one log entry per table, never removes
    or moves a table that was there, and adds only tables of its list,
    each at most once and none that existed. *)
Theorem ensureTablesExist_always_resolves
        (broken : string -> option string) (st : State) :
  exists added said,
    ensureTablesExist broken st
    = (Resolved, {| tables := tables st ++ added; log := log st ++ said |})
    /\ (forall t, In t added -> In t all_tables /\ ~ In t (tables st))
    /\ NoDup added
    /\ List.length said = 4.
Proof.
  destruct (ensure_chain broken all_tables st (fun v H => H))
    as (added & said & E & Ha & Hnd & Hlen & _).
  exists added, said. repeat split; auto; now apply Ha.
Qed.

Lemma ensure_link_sound (v : string) (refs : list string) (st : State) :
  foreign_tables v = Some refs ->
  forallb (fun r => hasTable r st) refs = true ->
  ensure_link sound (Resolved, st) v = (Resolved, ensured v st).
Proof.
  intros Hf Hrefs.
  unfold ensure_link, createTable, createTableInstructions, knex_createTable,
    ensured, sound.
  rewrite Hf. destruct (hasTable v st) eqn:E; [reflexivity|].
  cbn [negb]. now rewrite Hrefs.
Qed.

Lemma hasTable_ensured (t v : string) (st : State) :
  hasTable t (ensured v st) = hasTable t st || (t =? v).
Proof.
  unfold ensured. destruct (hasTable v st) eqn:E.
  - change (hasTable t (say (AlreadyExists v) st)) with (hasTable t st).
    destruct (String.eqb_spec t v) as [-> | _].
    + now rewrite E.
    + now rewrite orb_false_r.
  - unfold hasTable, say. cbn [tables]. rewrite existsb_app. cbn.
    now rewrite orb_false_r.
Qed.

Lemma log_ensured (v : string) (st : State) :
  exists e, log (ensured v st) = log st ++ [e] /\ is_error e = false.
Proof.
  unfold ensured. destruct (hasTable v st); eexists; split; reflexivity.
Qed.

Lemma tables_ensured (v : string) (st : State) :
  tables (ensured v st) = tables st ++ (if hasTable v st then [] else [v]).
Proof.
  unfold ensured. destruct (hasTable v st); cbn; now rewrite ?app_nil_r.
Qed.

Lemma ensureTablesExist_sound (st : State) :
  ensureTablesExist sound st
  = (Resolved,
     ensured "subscriptions"
       (ensured "subscribers" (ensured "cases" (ensured "defendants" st)))).
Proof.
  unfold ensureTablesExist, all_tables. cbn [fold_left].
  rewrite (ensure_link_sound "defendants" [] st eq_refl eq_refl).
  rewrite (ensure_link_sound "cases" ["defendants"] _ eq_refl).
  2:{ cbn [forallb]. rewrite hasTable_ensured. cbn.
      now rewrite orb_true_r. }
  rewrite (ensure_link_sound "subscribers" [] _ eq_refl eq_refl).
  rewrite (ensure_link_sound "subscriptions" ["defendants"; "subscribers"]
             _ eq_refl).
  2:{ cbn [forallb]. rewrite !hasTable_ensured. cbn.
      now rewrite !orb_true_r. }
  reflexivity.
Qed.

Lemma ensureTablesExist_sound_all (st : State) (t : string) :
  In t all_tables ->
  hasTable t (snd (ensureTablesExist sound st)) = true.
Proof.
  rewrite ensureTablesExist_sound. cbn [snd].
  intros [<- | [<- | [<- | [<- | []]]]]; rewrite !hasTable_ensured; cbn;
    now rewrite ?orb_true_r.
Qed.

(** X14.  On a database that refuses nothing, [ensureTablesExist] ends
    with the four tables in place, whatever was there before, and logs no
    error: the order of its list creates every table after the tables its
    foreign keys reference. *)
Theorem ensureTablesExist_creates_all (st : State) :
  let st' := snd (ensureTablesExist sound st) in
  fst (ensureTablesExist sound st) = Resolved /\
  (forall t, In t all_tables -> In t (tables st')) /\
  exists said, log st' = log st ++ said /\ existsb is_error said = false.
Proof.
  cbv zeta. split; [now rewrite ensureTablesExist_sound|]. split.
  - intros t Ht. apply hasTable_In. now apply ensureTablesExist_sound_all.
  - rewrite ensureTablesExist_sound. cbn [snd].
    destruct (log_ensured "defendants" st) as (e1 & E1 & H1).
    destruct (log_ensured "cases" (ensured "defendants" st))
      as (e2 & E2 & H2).
    destruct (log_ensured "subscribers"
                (ensured "cases" (ensured "defendants" st)))
      as (e3 & E3 & H3).
    destruct (log_ensured "subscriptions"
                (ensured "subscribers"
                   (ensured "cases" (ensured "defendants" st))))
      as (e4 & E4 & H4).
    exists [e1; e2; e3; e4]. rewrite E4, E3, E2, E1, <- !app_assoc.
    split; [reflexivity|]. cbn. now rewrite H1, H2, H3, H4.
Qed.

(** X15.  Once [ensureTablesExist] has run on a database that refused
    nothing, running it again changes no table, even on a database that
    would now refuse to create any: it only logs, for each of the four
    tables, that the table exists. *)
Theorem ensureTablesExist_again
        (broken : string -> option string) (st : State) :
  let st' := snd (ensureTablesExist sound st) in
  ensureTablesExist broken st'
  = (Resolved,
     {| tables := tables st';
        log := log st' ++ map AlreadyExists all_tables |}).
Proof.
  cbv zeta.
  destruct (ensure_chain broken all_tables
              (snd (ensureTablesExist sound st)) (fun v H => H))
    as (added & said & E & _ & _ & _ & Hex).
  destruct (Hex (ensureTablesExist_sound_all st)) as [-> ->].
  unfold ensureTablesExist at 1. rewrite E. now rewrite app_nil_r.
Qed.

End ManagerFacts.

(* ================================================================= *)
(** * The data loading script *)

Module RunnerFacts.
Import Runner.
Local Open Scope list_scope.

(** X16.  The loading script closes the database connections on every
    path: [knex.destroy] is called once, or twice when the call at the end
    of the chain itself fails.  An error is logged exactly when a step
    fails, and it is the error of the first step that failed; when none
    fails the effects are the report, the debug lines and one destroy. *)
Theorem run_always_destroys (s : Steps) :
  1 <= List.length (filter is_destroy (run s)) <= 2 /\
  (destroy s = None -> List.length (filter is_destroy (run s)) = 1) /\
  (forall err, In (LoggedError err) (run s) <-> first_failure s = Some err) /\
  (first_failure s = None ->
   exists r, load s = inr r /\
             run s = [Loaded r] ++ debug_handles ++ [Destroy]).
Proof.
  destruct s as [[e1 | r] [e2|] [e3|]]; unfold run, first_failure; cbn.
  all: repeat split; try lia; try discriminate; try (intros; lia).
  all: try (intros err H;
            repeat match goal with
                   | H : _ \/ _ |- _ => destruct H
                   | H : False |- _ => destruct H
                   end; congruence).
  all: try (intros H; injection H as <-; tauto).
  all: try (intros _; eexists; split; reflexivity).
  all: intuition congruence.
Qed.

End RunnerFacts.
